(** * Rubik's cube engine and session registry

    A shallow embedding of [src/cubeLogic.ts] (class [RubiksCube]), of the
    tool handlers of [src/app.ts] ([startCube], [manipulateCube], [finish])
    and of the move route of [src/visualization/APIRoutes.ts], followed by
    the properties of the engine and of the session life cycle.

    Conventions of the embedding.
    - A face is a JavaScript [string[][]]: a list of rows, each a list of
      one-character colour codes.  Nothing in the types forces the 3x3
      shape; [shaped] states it where a property needs it.
    - The engine mutates [this.state] in place.  Every method becomes a
      computation in the monad [M]: it receives the engine state and returns
      an outcome together with the state left behind, so that a thrown
      exception still exposes whatever was mutated before the throw.
    - Array accesses are bounds-checked: reading or writing a row or a
      column that the array does not have stops the computation with
      [OutOfRange].  (JavaScript would instead read [undefined], raise a
      [TypeError] on the missing row, or grow the array on a write.)  On
      3x3 faces no check ever fails, and there the checked semantics is the
      semantics of the source.
    - The rows of a face are never shared between two faces: the source
      builds them with literals, with spread copies [[...row]] and with the
      fresh grid of [rotateFace]; a functional update per write is therefore
      faithful. *)

From Stdlib Require Import String List Bool ZArith Lia.
From stdpp Require Import gmap strings.
Import ListNotations.
Local Open Scope string_scope.
Local Open Scope list_scope.

(** ** Data model ([src/types.ts]) *)

Definition Face : Type := list (list string).

Record Faces : Type := mkFaces {
  front : Face;
  back : Face;
  left : Face;
  right : Face;
  top : Face;
  bottom : Face
}.

Record CubeState : Type := mkCubeState {
  faces : Faces;
  solved : bool;
  moveHistory : list string
}.

(** The property names of [state.faces], used to address a face. *)
Inductive FaceName : Type :=
  | f_front | f_back | f_left | f_right | f_top | f_bottom.

Definition getFace (n : FaceName) (fs : Faces) : Face :=
  match n with
  | f_front => front fs
  | f_back => back fs
  | f_left => left fs
  | f_right => right fs
  | f_top => top fs
  | f_bottom => bottom fs
  end.

Definition setFace (n : FaceName) (f : Face) (fs : Faces) : Faces :=
  match n with
  | f_front => mkFaces f (back fs) (left fs) (right fs) (top fs) (bottom fs)
  | f_back => mkFaces (front fs) f (left fs) (right fs) (top fs) (bottom fs)
  | f_left => mkFaces (front fs) (back fs) f (right fs) (top fs) (bottom fs)
  | f_right => mkFaces (front fs) (back fs) (left fs) f (top fs) (bottom fs)
  | f_top => mkFaces (front fs) (back fs) (left fs) (right fs) f (bottom fs)
  | f_bottom => mkFaces (front fs) (back fs) (left fs) (right fs) (top fs) f
  end.

(** [Object.values(this.state.faces)]: the faces in property order. *)
Definition faceValues (fs : Faces) : list Face :=
  [front fs; back fs; left fs; right fs; top fs; bottom fs].

(** [COLORS] of [src/types.ts]. *)
Definition WHITE : string := "W".
Definition YELLOW : string := "Y".
Definition RED : string := "R".
Definition ORANGE : string := "O".
Definition BLUE : string := "B".
Definition GREEN : string := "G".

Definition COLORS : list string := [WHITE; YELLOW; RED; ORANGE; BLUE; GREEN].

(** ** Exceptions and the engine monad *)

Inductive Error : Type :=
  | InvalidMove (move : string)        (* Error(`Unknown move: ${move}`) *)
  | OutOfRange                         (* an index outside an array *)
  | SessionNotFound (gameId : string). (* Error(`Game session ${gameId} not found`) *)

Inductive Outcome (A : Type) : Type :=
  | Ok (a : A)
  | Throw (e : Error).
Arguments Ok {A} a.
Arguments Throw {A} e.

Definition M (A : Type) : Type := CubeState -> Outcome A * CubeState.

Definition ret {A : Type} (a : A) : M A := fun st => (Ok a, st).

Definition bind {A B : Type} (m : M A) (k : A -> M B) : M B :=
  fun st =>
    match m st with
    | (Ok a, st') => k a st'
    | (Throw e, st') => (Throw e, st')
    end.

Definition throw {A : Type} (e : Error) : M A := fun st => (Throw e, st).

Declare Scope engine_scope.
Delimit Scope engine_scope with engine.
Notation "'let*' x ':=' c 'in' k" := (bind c (fun x => k))
  (at level 10, x name, c at level 100, k at level 200) : engine_scope.
Notation "c ;; k" := (bind c (fun _ => k))
  (at level 100, k at level 200, right associativity) : engine_scope.
Local Open Scope engine_scope.

(** A [for] loop over the indices [l], threading a local value. *)
Fixpoint forEach {S : Type} (l : list nat) (body : nat -> S -> M S) (acc : S)
  : M S :=
  match l with
  | [] => ret acc
  | i :: l' => let* acc' := body i acc in forEach l' body acc'
  end.

(** *** Checked array accesses *)

(** [a[i][j]] on a local grid. *)
Definition getAt (a : Face) (i j : nat) : M string :=
  match nth_error a i with
  | Some row =>
      match nth_error row j with
      | Some v => ret v
      | None => throw OutOfRange
      end
  | None => throw OutOfRange
  end.

Fixpoint update {A : Type} (l : list A) (i : nat) (v : A) : option (list A) :=
  match l, i with
  | [], _ => None
  | _ :: l', O => Some (v :: l')
  | x :: l', S i' =>
      match update l' i' v with
      | Some l'' => Some (x :: l'')
      | None => None
      end
  end.

(** [a[i][j] = v] on a local grid. *)
Definition setAt (a : Face) (i j : nat) (v : string) : M Face :=
  match nth_error a i with
  | Some row =>
      match update row j v with
      | Some row' =>
          match update a i row' with
          | Some a' => ret a'
          | None => throw OutOfRange
          end
      | None => throw OutOfRange
      end
  | None => throw OutOfRange
  end.

(** [this.state.faces.<n>] read and assigned. *)
Definition readFace (n : FaceName) : M Face :=
  fun st => (Ok (getFace n (faces st)), st).

Definition writeFace (n : FaceName) (f : Face) : M unit :=
  fun st =>
    (Ok tt, mkCubeState (setFace n f (faces st)) (solved st) (moveHistory st)).

(** [this.state.faces.<n>[i][j]] read and assigned. *)
Definition readCell (n : FaceName) (i j : nat) : M string :=
  let* f := readFace n in getAt f i j.

Definition writeCell (n : FaceName) (i j : nat) (v : string) : M unit :=
  let* f := readFace n in
  let* f' := setAt f i j v in
  writeFace n f'.

(** [[...this.state.faces.<n>[i]]]: a copy of row [i]. *)
Definition readRow (n : FaceName) (i : nat) : M (list string) :=
  let* f := readFace n in
  match nth_error f i with
  | Some row => ret row
  | None => throw OutOfRange
  end.

(** [this.state.faces.<n>[i] = row]. *)
Definition writeRow (n : FaceName) (i : nat) (row : list string) : M unit :=
  let* f := readFace n in
  match update f i row with
  | Some f' => writeFace n f'
  | None => throw OutOfRange
  end.

(** [temp[k]] on a local three-element array literal. *)
Definition item (temp : list string) (k : nat) : M string :=
  match nth_error temp k with
  | Some v => ret v
  | None => throw OutOfRange
  end.

(** [this.state.faces.<dst>[di][dj] = this.state.faces.<src>[si][sj]]. *)
Definition assignCell (dst : FaceName) (di dj : nat)
                      (src : FaceName) (si sj : nat) : M unit :=
  let* v := readCell src si sj in writeCell dst di dj v.

(** [this.state.faces.<dst>[di][dj] = temp[k]]. *)
Definition assignItem (dst : FaceName) (di dj : nat)
                      (temp : list string) (k : nat) : M unit :=
  let* v := item temp k in writeCell dst di dj v.

(** [this.state.faces.<dst>[di] = [...this.state.faces.<src>[si]]]. *)
Definition assignRow (dst : FaceName) (di : nat)
                     (src : FaceName) (si : nat) : M unit :=
  let* row := readRow src si in writeRow dst di row.

(** The array literal [[f[i0][j0], f[i1][j1], f[i2][j2]]]. *)
Definition triple (n : FaceName) (i0 j0 i1 j1 i2 j2 : nat) : M (list string) :=
  let* a := readCell n i0 j0 in
  let* b := readCell n i1 j1 in
  let* c := readCell n i2 j2 in
  ret [a; b; c].

(** ** The engine ([src/cubeLogic.ts], class [RubiksCube]) *)

Definition uniformFace (c : string) : Face :=
  [[c; c; c]; [c; c; c]; [c; c; c]].

Definition createSolvedCube : CubeState :=
  {| faces := {| front := uniformFace GREEN;
                 back := uniformFace BLUE;
                 left := uniformFace ORANGE;
                 right := uniformFace RED;
                 top := uniformFace WHITE;
                 bottom := uniformFace YELLOW |};
     solved := true;
     moveHistory := [] |}.

(** The constructor: [this.state = this.createSolvedCube()]. *)
Definition newRubiksCube : CubeState := createSolvedCube.

(** [getState] and [setState] copy through [JSON.parse(JSON.stringify(_))],
    which on arrays of strings, booleans and plain objects is the identity on
    values. *)
Definition getState : M CubeState := fun st => (Ok st, st).

Definition setState (newState : CubeState) : M unit :=
  fun _ => (Ok tt, newState).

(** The inner loops of [isSolved] on one face: the first sticker that
    differs from [firstColor] ends the scan with [false]. *)
Fixpoint scanFace (face : Face) (firstColor : string)
                  (cells : list (nat * nat)) : M bool :=
  match cells with
  | [] => ret true
  | (i, j) :: rest =>
      let* v := getAt face i j in
      if String.eqb v firstColor then scanFace face firstColor rest
      else ret false
  end.

(** The index pairs of [for i < 3] / [for j < 3], in loop order. *)
Definition cells3 : list (nat * nat) :=
  flat_map (fun i => map (fun j => (i, j)) (seq 0 3)) (seq 0 3).

Fixpoint scanFaces (fs : list Face) : M bool :=
  match fs with
  | [] => ret true
  | face :: rest =>
      let* firstColor := getAt face 0 0 in
      let* same := scanFace face firstColor cells3 in
      if same then scanFaces rest else ret false
  end.

Definition isSolved : M bool :=
  fun st => scanFaces (faceValues (faces st)) st.

Definition checkSolved : M bool := isSolved.

(** [rotateFace]: a fresh [n]x[n] grid of empty strings, filled by
    [rotated[j][n - 1 - i] = face[i][j]]. *)
Definition rotateFace (face : Face) : M Face :=
  let n := length face in
  let rotated := repeat (repeat "" n) n in
  forEach (seq 0 n) (fun i rotated =>
    forEach (seq 0 n) (fun j rotated =>
      let* v := getAt face i j in
      setAt rotated j (n - 1 - i) v) rotated) rotated.

Definition rotateFaceCounterClockwise (face : Face) : M Face :=
  let* r1 := rotateFace face in
  let* r2 := rotateFace r1 in
  rotateFace r2.

(** [this.state.faces.<n> = this.rotateFace(this.state.faces.<n>)]. *)
Definition turnFace (n : FaceName) : M unit :=
  let* f := readFace n in
  let* f' := rotateFace f in
  writeFace n f'.

Definition moveU : M unit :=
  turnFace f_top;;
  let* temp := readRow f_front 0 in
  assignRow f_front 0 f_right 0;;
  assignRow f_right 0 f_back 0;;
  assignRow f_back 0 f_left 0;;
  writeRow f_left 0 temp.

Definition moveD : M unit :=
  turnFace f_bottom;;
  let* temp := readRow f_front 2 in
  assignRow f_front 2 f_left 2;;
  assignRow f_left 2 f_back 2;;
  assignRow f_back 2 f_right 2;;
  writeRow f_right 2 temp.

Definition moveR : M unit :=
  turnFace f_right;;
  let* temp := triple f_front 0 2 1 2 2 2 in
  assignCell f_front 0 2 f_bottom 0 2;;
  assignCell f_front 1 2 f_bottom 1 2;;
  assignCell f_front 2 2 f_bottom 2 2;;
  assignCell f_bottom 0 2 f_back 2 0;;
  assignCell f_bottom 1 2 f_back 1 0;;
  assignCell f_bottom 2 2 f_back 0 0;;
  assignCell f_back 0 0 f_top 2 2;;
  assignCell f_back 1 0 f_top 1 2;;
  assignCell f_back 2 0 f_top 0 2;;
  assignItem f_top 0 2 temp 0;;
  assignItem f_top 1 2 temp 1;;
  assignItem f_top 2 2 temp 2.

Definition moveL : M unit :=
  turnFace f_left;;
  let* temp := triple f_front 0 0 1 0 2 0 in
  assignCell f_front 0 0 f_top 0 0;;
  assignCell f_front 1 0 f_top 1 0;;
  assignCell f_front 2 0 f_top 2 0;;
  assignCell f_top 0 0 f_back 2 2;;
  assignCell f_top 1 0 f_back 1 2;;
  assignCell f_top 2 0 f_back 0 2;;
  assignCell f_back 0 2 f_bottom 2 0;;
  assignCell f_back 1 2 f_bottom 1 0;;
  assignCell f_back 2 2 f_bottom 0 0;;
  assignItem f_bottom 0 0 temp 0;;
  assignItem f_bottom 1 0 temp 1;;
  assignItem f_bottom 2 0 temp 2.

Definition moveF : M unit :=
  turnFace f_front;;
  let* temp := readRow f_top 2 in
  let* fromLeft := triple f_left 2 2 1 2 0 2 in
  writeRow f_top 2 fromLeft;;
  assignCell f_left 0 2 f_bottom 0 0;;
  assignCell f_left 1 2 f_bottom 0 1;;
  assignCell f_left 2 2 f_bottom 0 2;;
  let* fromRight := triple f_right 2 0 1 0 0 0 in
  writeRow f_bottom 0 fromRight;;
  assignItem f_right 0 0 temp 0;;
  assignItem f_right 1 0 temp 1;;
  assignItem f_right 2 0 temp 2.

Definition moveB : M unit :=
  turnFace f_back;;
  let* temp := readRow f_top 0 in
  let* fromRight := triple f_right 0 2 1 2 2 2 in
  writeRow f_top 0 fromRight;;
  assignCell f_right 0 2 f_bottom 2 2;;
  assignCell f_right 1 2 f_bottom 2 1;;
  assignCell f_right 2 2 f_bottom 2 0;;
  let* fromLeft := triple f_left 2 0 1 0 0 0 in
  writeRow f_bottom 2 fromLeft;;
  assignItem f_left 0 0 temp 2;;
  assignItem f_left 1 0 temp 1;;
  assignItem f_left 2 0 temp 0.

(** The [switch] of [getMoveFunction]; the [default] branch throws before
    any closure is returned. *)
Definition getMoveFunction (move : string) : M (M unit) :=
  if String.eqb move "U" then ret moveU
  else if String.eqb move "U'" then ret (moveU;; moveU;; moveU)
  else if String.eqb move "U2" then ret (moveU;; moveU)
  else if String.eqb move "D" then ret moveD
  else if String.eqb move "D'" then ret (moveD;; moveD;; moveD)
  else if String.eqb move "D2" then ret (moveD;; moveD)
  else if String.eqb move "R" then ret moveR
  else if String.eqb move "R'" then ret (moveR;; moveR;; moveR)
  else if String.eqb move "R2" then ret (moveR;; moveR)
  else if String.eqb move "L" then ret moveL
  else if String.eqb move "L'" then ret (moveL;; moveL;; moveL)
  else if String.eqb move "L2" then ret (moveL;; moveL)
  else if String.eqb move "F" then ret moveF
  else if String.eqb move "F'" then ret (moveF;; moveF;; moveF)
  else if String.eqb move "F2" then ret (moveF;; moveF)
  else if String.eqb move "B" then ret moveB
  else if String.eqb move "B'" then ret (moveB;; moveB;; moveB)
  else if String.eqb move "B2" then ret (moveB;; moveB)
  else throw (InvalidMove move).

(** [this.state.moveHistory.push(move)]. *)
Definition pushHistory (move : string) : M unit :=
  fun st => (Ok tt, mkCubeState (faces st) (solved st) (moveHistory st ++ [move])).

(** [this.state.solved = b]. *)
Definition assignSolved (b : bool) : M unit :=
  fun st => (Ok tt, mkCubeState (faces st) b (moveHistory st)).

Definition executeMove (move : string) : M unit :=
  let* moveFunc := getMoveFunction move in
  moveFunc;;
  pushHistory move;;
  let* b := checkSolved in
  assignSolved b.

(** The 18 values of the type [CubeMove]. *)
Definition CubeMove : list string :=
  ["U"; "D"; "L"; "R"; "F"; "B";
   "U'"; "D'"; "L'"; "R'"; "F'"; "B'";
   "U2"; "D2"; "L2"; "R2"; "F2"; "B2"].

(** A finite sequence of [executeMove] calls. *)
Fixpoint executeMoves (moves : list string) : M unit :=
  match moves with
  | [] => ret tt
  | m :: rest => executeMove m;; executeMoves rest
  end.

(** The pool of [scramble]: the twelve quarter turns. *)
Definition allMoves : list string :=
  ["U"; "D"; "L"; "R"; "F"; "B"; "U'"; "D'"; "L'"; "R'"; "F'"; "B'"].

(** [scramble(moves)].  The random source is made explicit: [draws] lists,
    for each of the [moves] iterations, the index
    [Math.floor(Math.random() * allMoves.length)] that was drawn. *)
Fixpoint scramble (draws : list nat) : M unit :=
  match draws with
  | [] => ret tt
  | k :: rest =>
      match nth_error allMoves k with
      | Some randomMove => executeMove randomMove;; scramble rest
      | None => throw OutOfRange
      end
  end.

(** ** The tool handlers of [src/app.ts] *)

Inductive Status : Type := active | completed.

Record GameSession : Type := mkGameSession {
  id : string;
  cubeState : CubeState;
  createdAt : Z;
  lastActivity : Z;
  status : Status
}.

(** An entry of [games: Map<string, { cube: RubiksCube; session: GameSession }>].
    The engine object is represented by its private [state]. *)
Module Game.
Record t : Type := mk { cube : CubeState; session : GameSession }.
End Game.

Module CubeResponse.
Record t : Type := mk {
  gameId : string;
  cube : CubeState;
  nextAction : option string
}.
End CubeResponse.

(** [nextAction: newState.solved ? "finish" : "manipulateCube"]. *)
Definition nextActionOf (st : CubeState) : option string :=
  if solved st then Some "finish" else Some "manipulateCube".

(** [VisualizationServer.updateSession].  The visualization server keeps, under
    the same id, the very session object that [startCube] stored in [games]
    ([registerSession(session)]), so its update lands on the session of the
    registry entry. *)
Definition updateSession (newState : CubeState) (now : Z) (s : GameSession)
  : GameSession :=
  {| id := id s;
     cubeState := newState;
     createdAt := createdAt s;
     lastActivity := now;
     status := if solved newState then completed else status s |}.

(** The [manipulateCube] tool.  A method call on [cube] mutates the engine of
    the entry in place, whatever its outcome, so the entry is stored back with
    the engine state the call left.  [now] and [now'] are the two readings of
    [Date.now()], in the handler and in [updateSession]. *)
Definition manipulateCube (gameId move : string) (now now' : Z)
    (games : gmap string Game.t)
  : Outcome CubeResponse.t * gmap string Game.t :=
  match games !! gameId with
  | None => (Throw (SessionNotFound gameId), games)
  | Some game =>
      let session := Game.session game in
      match status session with
      | completed =>
          match getState (Game.cube game) with
          | (Ok state, cube') =>
              (Ok (CubeResponse.mk gameId state (Some "finish")),
               <[gameId := Game.mk cube' session]> games)
          | (Throw e, cube') =>
              (Throw e, <[gameId := Game.mk cube' session]> games)
          end
      | active =>
          match (executeMove move;; getState) (Game.cube game) with
          | (Throw e, cube') =>
              (Throw e, <[gameId := Game.mk cube' session]> games)
          | (Ok newState, cube') =>
              let session1 :=
                {| id := id session;
                   cubeState := newState;
                   createdAt := createdAt session;
                   lastActivity := now;
                   status := if solved newState then completed
                             else status session |} in
              let session2 := updateSession newState now' session1 in
              (Ok (CubeResponse.mk gameId newState (nextActionOf newState)),
               <[gameId := Game.mk cube' session2]> games)
          end
      end
  end.

(** The [finish] tool. *)
Definition finish (gameId : string) (now : Z) (games : gmap string Game.t)
  : Outcome CubeResponse.t * gmap string Game.t :=
  match games !! gameId with
  | None => (Throw (SessionNotFound gameId), games)
  | Some game =>
      let session := Game.session game in
      match getState (Game.cube game) with
      | (Throw e, cube') =>
          (Throw e, <[gameId := Game.mk cube' session]> games)
      | (Ok finalState, cube') =>
          let session' :=
            {| id := id session;
               cubeState := cubeState session;
               createdAt := createdAt session;
               lastActivity := now;
               status := completed |} in
          (Ok (CubeResponse.mk gameId finalState None),
           <[gameId := Game.mk cube' session']> games)
      end
  end.

(** ** Vocabulary of the properties *)

(** A face is a 3x3 grid. *)
Definition grid3b (f : Face) : bool :=
  Nat.eqb (length f) 3 && forallb (fun row => Nat.eqb (length row) 3) f.

(** All six faces of a state are 3x3 grids. *)
Definition shaped (st : CubeState) : Prop :=
  forallb grid3b (faceValues (faces st)) = true.

Definition grid (a b c d e f g h i : string) : Face :=
  [[a; b; c]; [d; e; f]; [g; h; i]].

(** Row [i] and sticker [(i, j)] of a face, for statements only. *)
Definition rowOf (f : Face) (i : nat) : list string := nth i f [].

Definition cell (f : Face) (i j : nat) : string := nth j (rowOf f i) "".

(** The stickers of a state, face after face, and the number of them that
    carry colour [c]. *)
Definition stickers (st : CubeState) : list string :=
  concat (concat (faceValues (faces st))).

Definition hasColor (c s : string) : nat := if String.eqb s c then 1 else 0.

Definition countColor (c : string) (st : CubeState) : nat :=
  list_sum (map (hasColor c) (stickers st)).

(** Every sticker of the face equals every other: the nine stickers are
    identical to each other. *)
Definition uniform (f : Face) : Prop :=
  forall i j i' j', i < 3 -> j < 3 -> i' < 3 -> j' < 3 ->
    cell f i j = cell f i' j'.

(** All nine stickers of the face equal the face's own first sticker. *)
Definition likeFirst (f : Face) : Prop :=
  forall i j, i < 3 -> j < 3 -> cell f i j = cell f 0 0.

Definition allFaces (P : Face -> Prop) (st : CubeState) : Prop :=
  Forall P (faceValues (faces st)).

(** A computation is [safe] when, from every state with 3x3 faces, it
    returns normally, leaves 3x3 faces, touches neither the flag nor the
    history, and moves stickers around without recolouring any. *)
Definition safe (m : M unit) : Prop :=
  forall st, shaped st ->
    exists st', m st = (Ok tt, st') /\ shaped st' /\
      solved st' = solved st /\ moveHistory st' = moveHistory st /\
      forall c, countColor c st' = countColor c st.

(** The result of the scan, as a boolean function of the faces. *)
Definition likeFirstb (f : Face) : bool :=
  forallb (fun '(i, j) => String.eqb (cell f i j) (cell f 0 0)) cells3.

Definition solvedb (st : CubeState) : bool :=
  forallb likeFirstb (faceValues (faces st)).

(** A computation that never changes the engine state. *)
Definition readOnly {A : Type} (m : M A) : Prop :=
  forall st, snd (m st) = st.

(** Four applications in succession. *)
Definition fourTimes (m : M unit) : M unit := m;; m;; m;; m.

(** The state of the engine after [executeMove('R')] on a new cube. *)
Definition afterR : CubeState :=
  {| faces := {| front := grid "G" "G" "Y" "G" "G" "Y" "G" "G" "Y";
                 back := grid "W" "B" "B" "W" "B" "B" "W" "B" "B";
                 left := uniformFace ORANGE;
                 right := uniformFace RED;
                 top := grid "W" "W" "G" "W" "W" "G" "W" "W" "G";
                 bottom := grid "Y" "Y" "B" "Y" "Y" "B" "Y" "Y" "B" |};
     solved := false;
     moveHistory := ["R"] |}.

(** A snapshot whose flag disagrees with its faces: the faces reached by
    one R turn, flagged as solved. *)
Definition staleSnapshot : CubeState :=
  {| faces := faces afterR; solved := true; moveHistory := [] |}.

(** A state whose six faces are each of one colour. *)
Definition paintedCube (c1 c2 c3 c4 c5 c6 : string) (flag : bool)
    (history : list string) : CubeState :=
  {| faces := {| front := uniformFace c1; back := uniformFace c2;
                 left := uniformFace c3; right := uniformFace c4;
                 top := uniformFace c5; bottom := uniformFace c6 |};
     solved := flag;
     moveHistory := history |}.

(** A registry with one completed and one active session, both on the
    unsolved cube [afterR]. *)
Definition sampleSession (gameId : string) (s : Status) : GameSession :=
  {| id := gameId; cubeState := afterR;
     createdAt := 1000; lastActivity := 2000; status := s |}.

Definition sampleGames : gmap string Game.t :=
  <["done" := Game.mk afterR (sampleSession "done" completed)]>
    (<["open" := Game.mk afterR (sampleSession "open" active)]> ∅).

(** ** Further code of the repository *)

(** *** [getStateAsText] ([src/cubeLogic.ts]) *)

(** The line feed of the template strings. *)
Definition newline : string := String (Ascii.ascii_of_nat 10) EmptyString.

(** [items.join(sep)]. *)
Definition join (sep : string) (items : list string) : string :=
  String.concat sep items.

(** [face.map(row => row.join(' ')).join('\n    ')]. *)
Definition joinRows (f : Face) : string :=
  join (String.append newline "    ") (map (join " ") f).

(** One iteration of the [for] loop of [getStateAsText]. *)
Definition textLine (i : nat) (result : string) : M string :=
  let* l := readRow f_left i in
  let result := String.append result (String.append (join " " l) " | ") in
  let* f := readRow f_front i in
  let result := String.append result (String.append (join " " f) " | ") in
  let* r := readRow f_right i in
  let result := String.append result (String.append (join " " r) " | ") in
  let* b := readRow f_back i in
  ret (String.append result (String.append (join " " b) newline)).

Definition getStateAsText : M string :=
  let result := "" in
  let* t := readFace f_top in
  let result :=
    String.append result
      (String.append "    " (String.append (joinRows t) newline)) in
  let result := String.append result newline in
  let* result := forEach (seq 0 3) textLine result in
  let result := String.append result newline in
  let* b := readFace f_bottom in
  ret (String.append result
         (String.append "    " (String.append (joinRows b) newline))).

(** *** [scramble] with its default ([src/cubeLogic.ts]) *)

(** [scramble(moves: number = 20)], the random source being the stream
    [rand] of the indices drawn: iteration [i] draws [rand i]. *)
Definition scrambleWith (moves : option nat) (rand : nat -> nat) : M unit :=
  let moves := match moves with Some n => n | None => 20 end in
  scramble (map rand (seq 0 moves)).

(** *** The [startCube] tool ([src/app.ts]) *)

(** [gameId] stands for the identifier the handler builds from the clock and
    the random source; [created] and [last] are the readings of [Date.now()]
    stored in the session.  [scramble] is the optional argument, [true]
    when absent.  [games.set] overwrites an entry that has the same id.
    The call [registerSession(session)] hands the same session object to
    the visualization server and changes nothing in the registry. *)
Definition startCube (scramble : option bool) (gameId : string)
    (rand : nat -> nat) (created last : Z) (games : gmap string Game.t)
  : Outcome CubeResponse.t * gmap string Game.t :=
  let scramble := match scramble with Some b => b | None => true end in
  match (if scramble then scrambleWith None rand else ret tt) newRubiksCube with
  | (Throw e, _) => (Throw e, games)
  | (Ok _, cube) =>
      match getState cube with
      | (Throw e, _) => (Throw e, games)
      | (Ok state, cube1) =>
          let session :=
            {| id := gameId; cubeState := state; createdAt := created;
               lastActivity := last; status := active |} in
          let games1 := <[gameId := Game.mk cube1 session]> games in
          match getState cube1 with
          | (Throw e, cube2) =>
              (Throw e, <[gameId := Game.mk cube2 session]> games1)
          | (Ok currentState, cube2) =>
              (Ok (CubeResponse.mk gameId currentState
                     (nextActionOf currentState)),
               <[gameId := Game.mk cube2 session]> games1)
          end
      end
  end.

(** *** Requests to the three tools *)

Inductive Request : Type :=
  | StartCube (scramble : option bool) (gameId : string) (rand : nat -> nat)
              (created last : Z)
  | ManipulateCube (gameId move : string) (now now' : Z)
  | Finish (gameId : string) (now : Z).

(** One tool call, and a series of them; a call that throws is answered
    with an error and the server goes on with the registry as the call left
    it. *)
Definition serve (r : Request) (games : gmap string Game.t)
  : Outcome CubeResponse.t * gmap string Game.t :=
  match r with
  | StartCube scramble gameId rand created last =>
      startCube scramble gameId rand created last games
  | ManipulateCube gameId move now now' =>
      manipulateCube gameId move now now' games
  | Finish gameId now => finish gameId now games
  end.

Fixpoint serveAll (rs : list Request) (games : gmap string Game.t)
  : gmap string Game.t :=
  match rs with
  | [] => games
  | r :: rest => serveAll rest (snd (serve r games))
  end.

(** *** The move route of the HTTP API ([src/visualization/APIRoutes.ts]) *)

Definition validMoves : list string :=
  ["U"; "D"; "L"; "R"; "F"; "B";
   "U'"; "D'"; "L'"; "R'"; "F'"; "B'";
   "U2"; "D2"; "L2"; "R2"; "F2"; "B2"].

(** [validMoves.includes(move)]. *)
Definition includes (l : list string) (x : string) : bool :=
  existsb (String.eqb x) l.

Inductive HttpResponse : Type :=
  | Status404                       (* { error: 'Game session not found' } *)
  | Status400                       (* { error: 'Invalid move' } *)
  | Status500                       (* { error: 'Failed to execute move' } *)
  | Status200 (message : string) (state : CubeState) (status : Status).

(** [POST /cube/:gameId/move] on the session map of the visualization
    server.  The route works on an engine of its own, loaded with the
    session's state; the broadcast to the web sockets is output only and
    left out.  An exception inside the [try] is answered with status 500
    and leaves the session as the statements before it made it. *)
Definition postMove (gameId move : string) (now : Z)
    (sessions : gmap string GameSession)
  : HttpResponse * gmap string GameSession :=
  match sessions !! gameId with
  | None => (Status404, sessions)
  | Some session =>
      if negb (includes validMoves move) then (Status400, sessions)
      else
        match (setState (cubeState session);; executeMove move;; getState)
                newRubiksCube with
        | (Throw _, _) => (Status500, sessions)
        | (Ok state, cube) =>
            let session1 :=
              {| id := id session; cubeState := state;
                 createdAt := createdAt session; lastActivity := now;
                 status := status session |} in
            match isSolved cube with
            | (Throw _, _) => (Status500, <[gameId := session1]> sessions)
            | (Ok b, _) =>
                let session2 :=
                  {| id := id session; cubeState := state;
                     createdAt := createdAt session; lastActivity := now;
                     status := if b then completed else status session |} in
                (Status200
                   (String.append "Move " (String.append move " executed"))
                   state (status session2),
                 <[gameId := session2]> sessions)
            end
        end
  end.

(** *** Vocabulary of the further properties *)

(** A grid of [n] rows of [n] stickers. *)
Definition square (n : nat) (f : Face) : Prop :=
  length f = n /\ Forall (fun row => length row = n) f.

(** The sticker in the middle of a face. *)
Definition center (f : Face) : string := cell f 1 1.

(** The centres of the six faces, in property order. *)
Definition centers (st : CubeState) : list string :=
  map center (faceValues (faces st)).

(** Every colour code of the state is a single character. *)
Definition oneCharStickers (st : CubeState) : Prop :=
  forallb (fun s => Nat.eqb (String.length s) 1) (stickers st) = true.

(** What the handlers keep true of every entry of the registry: the engine
    holds six 3x3 faces with nine stickers of each colour, its flag agrees
    with its faces, and the session's [cubeState] is the engine's state. *)
Definition entryOK (g : Game.t) : Prop :=
  shaped (Game.cube g) /\
  cubeState (Game.session g) = Game.cube g /\
  solved (Game.cube g) = solvedb (Game.cube g) /\
  forall c, In c COLORS -> countColor c (Game.cube g) = 9.

Definition registryOK (games : gmap string Game.t) : Prop :=
  forall gameId g, games !! gameId = Some g -> entryOK g.

(** The request does not create a session under the id [gameId]. *)
Definition otherId (gameId : string) (r : Request) : Prop :=
  match r with
  | StartCube _ gameId' _ _ _ => gameId' <> gameId
  | _ => True
  end.

(** The random source of the request draws inside the pool of [scramble]. *)
Definition drawsInRange (r : Request) : Prop :=
  match r with
  | StartCube _ _ rand _ _ => forall i, rand i < 12
  | _ => True
  end.

(** Pairs of tokens of one face, among U, D, L, R and F, of which the
    second undoes the first: a quarter turn and its counter turn, in either
    order, and a half turn twice. *)
Definition undoPairs : list (string * string) :=
  flat_map (fun x => [(x, String.append x "'"); (String.append x "'", x);
                      (String.append x "2", String.append x "2")])
           ["U"; "D"; "L"; "R"; "F"].

(** The three tokens of a face. *)
Definition turnsOf (x : string) : list string :=
  [x; String.append x "'"; String.append x "2"].

(** Pairs of tokens that turn opposite faces. *)
Definition oppositeTurns : list (string * string) :=
  list_prod (turnsOf "U") (turnsOf "D") ++
  list_prod (turnsOf "L") (turnsOf "R") ++
  list_prod (turnsOf "F") (turnsOf "B").

(** A computation that leaves the middle sticker of every face in place. *)
Definition keepsCenters (m : M unit) : Prop :=
  forall st st', shaped st -> m st = (Ok tt, st') -> centers st' = centers st.

(** What stays of a completed entry. *)
Definition frozenAs (game game' : Game.t) : Prop :=
  Game.cube game' = Game.cube game /\
  cubeState (Game.session game') = cubeState (Game.session game) /\
  status (Game.session game') = completed /\
  id (Game.session game') = id (Game.session game) /\
  createdAt (Game.session game') = createdAt (Game.session game).

(** The session map of the visualization server for [sampleGames]. *)
Definition sampleSessions : gmap string GameSession :=
  <["done" := sampleSession "done" completed]>
    (<["open" := sampleSession "open" active]> ∅).

(** The faces with the four strips around the back face reversed end to
    start: row 0 of top, row 2 of bottom, column 0 of left, column 2 of
    right. *)
Definition backStripsReversed (fs : Faces) : Faces :=
  let l := left fs in let r := right fs in
  let t := top fs in let d := bottom fs in
  {| front := front fs;
     back := back fs;
     left := grid (cell l 2 0) (cell l 0 1) (cell l 0 2)
                  (cell l 1 0) (cell l 1 1) (cell l 1 2)
                  (cell l 0 0) (cell l 2 1) (cell l 2 2);
     right := grid (cell r 0 0) (cell r 0 1) (cell r 2 2)
                   (cell r 1 0) (cell r 1 1) (cell r 1 2)
                   (cell r 2 0) (cell r 2 1) (cell r 0 2);
     top := grid (cell t 0 2) (cell t 0 1) (cell t 0 0)
                 (cell t 1 0) (cell t 1 1) (cell t 1 2)
                 (cell t 2 0) (cell t 2 1) (cell t 2 2);
     bottom := grid (cell d 0 0) (cell d 0 1) (cell d 0 2)
                    (cell d 1 0) (cell d 1 1) (cell d 1 2)
                    (cell d 2 2) (cell d 2 1) (cell d 2 0) |}.

(** * Properties *)

(** ** Shape lemmas *)

Lemma grid3b_inv (f : Face) :
  grid3b f = true ->
  exists a b c d e f' g h i, f = grid a b c d e f' g h i.
Proof.
  unfold grid3b, grid.
  destruct f as [|[|a [|b [|c [|]]]] [|[|d [|e [|f' [|]]]] [|[|g [|h [|i [|]]]] [|]]]];
    cbn; try discriminate.
  intros _. by exists a, b, c, d, e, f', g, h, i.
Qed.

Lemma grid3b_grid a b c d e f g h i : grid3b (grid a b c d e f g h i) = true.
Proof. reflexivity. Qed.

(** Name the 54 stickers of a state whose faces are known to be 3x3. *)
Ltac open_face H :=
  apply grid3b_inv in H;
  destruct H as (? & ? & ? & ? & ? & ? & ? & ? & ? & ->).

Ltac open_state st H :=
  destruct st as [[? ? ? ? ? ?] ? ?];
  unfold shaped in H; cbn [faces faceValues forallb front back left right top bottom] in H;
  repeat (apply andb_prop in H; let H1 := fresh "Hf" in destruct H as [H1 H];
          open_face H1);
  clear H.

Create HintDb cube.

(** Evaluate a computation on a state whose stickers are named. *)
Ltac run_named :=
  match goal with
  | |- exists st', ?t = (Ok tt, st') /\ _ =>
      let r := eval vm_compute in t in
      match r with
      | (Ok tt, ?s) => exists s; split; [vm_compute; reflexivity | ]
      end
  end.

(** ** The base moves on 3x3 states *)

Ltac safe_by_evaluation :=
  intros st H; open_state st H; run_named;
  split; [reflexivity | split; [reflexivity | split; [reflexivity | ]]];
  intros c; cbv -[hasColor Nat.add]; lia.

Lemma moveU_safe : safe moveU.
Proof. safe_by_evaluation. Qed.

Lemma moveD_safe : safe moveD.
Proof. safe_by_evaluation. Qed.

Lemma moveR_safe : safe moveR.
Proof. safe_by_evaluation. Qed.

Lemma moveL_safe : safe moveL.
Proof. safe_by_evaluation. Qed.

Lemma moveF_safe : safe moveF.
Proof. safe_by_evaluation. Qed.

Lemma moveB_safe : safe moveB.
Proof. safe_by_evaluation. Qed.

Lemma safe_seq (m1 m2 : M unit) : safe m1 -> safe m2 -> safe (m1;; m2).
Proof.
  intros H1 H2 st Hst.
  destruct (H1 st Hst) as (st1 & E1 & S1 & V1 & T1 & C1).
  destruct (H2 st1 S1) as (st2 & E2 & S2 & V2 & T2 & C2).
  exists st2. unfold bind. rewrite E1, E2.
  split; [reflexivity | split; [exact S2 | ]].
  split; [congruence | split; [congruence | ]].
  intros c. rewrite C2. apply C1.
Qed.

#[local] Hint Resolve moveU_safe moveD_safe moveR_safe moveL_safe
  moveF_safe moveB_safe safe_seq : cube.

(** ** Checked accesses on a 3x3 grid *)

Lemma getAt_cell (f : Face) (i j : nat) (st : CubeState) :
  grid3b f = true -> i < 3 -> j < 3 ->
  getAt f i j st = (Ok (cell f i j), st).
Proof.
  intros H Hi Hj. open_face H.
  destruct i as [|[|[|i]]]; try lia;
    destruct j as [|[|[|j]]]; try lia; reflexivity.
Qed.

Lemma getAt_outside (f : Face) (i j : nat) (st : CubeState) :
  grid3b f = true -> ~ (i < 3 /\ j < 3) ->
  getAt f i j st = (Throw OutOfRange, st).
Proof.
  intros H Hij. open_face H.
  destruct i as [|[|[|i]]]; destruct j as [|[|[|j]]];
    try reflexivity; try (exfalso; apply Hij; lia);
    unfold getAt, grid; cbn;
    first [destruct i; reflexivity | destruct j; reflexivity].
Qed.

Lemma setAt_inside (f : Face) (i j : nat) (v : string) (st : CubeState) :
  grid3b f = true -> i < 3 -> j < 3 ->
  exists f', setAt f i j v st = (Ok f', st) /\ grid3b f' = true.
Proof.
  intros H Hi Hj. open_face H.
  destruct i as [|[|[|i]]]; try lia;
    destruct j as [|[|[|j]]]; try lia; eexists; split; reflexivity.
Qed.

Lemma setAt_outside (f : Face) (i j : nat) (v : string) (st : CubeState) :
  grid3b f = true -> ~ (i < 3 /\ j < 3) ->
  setAt f i j v st = (Throw OutOfRange, st).
Proof.
  intros H Hij. open_face H.
  destruct i as [|[|[|i]]]; destruct j as [|[|[|j]]];
    try reflexivity; try (exfalso; apply Hij; lia);
    unfold setAt, grid; cbn;
    first [destruct i; reflexivity | destruct j; reflexivity].
Qed.

(** ** [isSolved] *)

Lemma readOnly_ret {A : Type} (a : A) : readOnly (ret a).
Proof. intros st. reflexivity. Qed.

Lemma readOnly_throw {A : Type} (e : Error) : readOnly (@throw A e).
Proof. intros st. reflexivity. Qed.

Lemma readOnly_bind {A B : Type} (m : M A) (k : A -> M B) :
  readOnly m -> (forall a, readOnly (k a)) -> readOnly (bind m k).
Proof.
  intros Hm Hk st. unfold bind.
  specialize (Hm st). destruct (m st) as [[a|e] st1]; simpl in Hm; subst st1.
  - apply Hk.
  - reflexivity.
Qed.

Lemma readOnly_getAt (f : Face) (i j : nat) : readOnly (getAt f i j).
Proof.
  unfold getAt. destruct (nth_error f i) as [row|].
  - destruct (nth_error row j); [apply readOnly_ret | apply readOnly_throw].
  - apply readOnly_throw.
Qed.

Lemma readOnly_scanFace (f : Face) (c : string) (cells : list (nat * nat)) :
  readOnly (scanFace f c cells).
Proof.
  induction cells as [|[i j] rest IH]; simpl.
  - apply readOnly_ret.
  - apply readOnly_bind; [apply readOnly_getAt | ].
    intros v. destruct (String.eqb v c); [exact IH | apply readOnly_ret].
Qed.

Lemma readOnly_scanFaces (fs : list Face) : readOnly (scanFaces fs).
Proof.
  induction fs as [|f rest IH]; cbn [scanFaces].
  - apply readOnly_ret.
  - apply readOnly_bind; [apply readOnly_getAt | ]. intros c.
    apply readOnly_bind; [apply readOnly_scanFace | ].
    intros b. destruct b; [exact IH | apply readOnly_ret].
Qed.

Lemma readOnly_isSolved : readOnly isSolved.
Proof. intros st. unfold isSolved. apply readOnly_scanFaces. Qed.

Lemma scanFace_spec (f : Face) (c : string) (cells : list (nat * nat))
    (st : CubeState) :
  grid3b f = true ->
  Forall (fun '(i, j) => i < 3 /\ j < 3) cells ->
  scanFace f c cells st
  = (Ok (forallb (fun '(i, j) => String.eqb (cell f i j) c) cells), st).
Proof.
  intros Hf Hcells. induction Hcells as [|[i j] rest [Hi Hj] _ IH]; simpl.
  - reflexivity.
  - unfold bind. rewrite (getAt_cell f i j st Hf Hi Hj).
    destruct (String.eqb (cell f i j) c); [exact IH | reflexivity].
Qed.

Lemma cells3_in_range : Forall (fun '(i, j) => i < 3 /\ j < 3) cells3.
Proof. unfold cells3. cbn. repeat constructor. Qed.

Lemma scanFaces_spec (fs : list Face) (st : CubeState) :
  forallb grid3b fs = true ->
  scanFaces fs st = (Ok (forallb likeFirstb fs), st).
Proof.
  induction fs as [|f rest IH]; cbn [scanFaces forallb]; intros H.
  - reflexivity.
  - apply andb_prop in H. destruct H as [Hf Hrest].
    unfold bind. rewrite (getAt_cell f 0 0 st Hf) by lia.
    rewrite (scanFace_spec f (cell f 0 0) cells3 st Hf cells3_in_range).
    fold (likeFirstb f). destruct (likeFirstb f); [exact (IH Hrest) | reflexivity].
Qed.

Lemma isSolved_spec (st : CubeState) :
  shaped st -> isSolved st = (Ok (solvedb st), st).
Proof. intros H. unfold isSolved, solvedb. by apply scanFaces_spec. Qed.

Lemma likeFirstb_spec (f : Face) : likeFirstb f = true <-> likeFirst f.
Proof.
  unfold likeFirstb, likeFirst. rewrite forallb_forall. split.
  - intros H i j Hi Hj. apply String.eqb_eq. apply (H (i, j)).
    unfold cells3. 
    destruct i as [|[|[|i]]]; try lia;
      destruct j as [|[|[|j]]]; try lia; cbn; tauto.
  - intros H [i j] Hin. apply String.eqb_eq. apply H.
    + unfold cells3 in Hin. cbn in Hin.
      repeat (destruct Hin as [E|Hin]; [inversion E; lia | ]). destruct Hin.
    + unfold cells3 in Hin. cbn in Hin.
      repeat (destruct Hin as [E|Hin]; [inversion E; lia | ]). destruct Hin.
Qed.

Lemma likeFirst_uniform (f : Face) : likeFirst f <-> uniform f.
Proof.
  unfold likeFirst, uniform. split.
  - intros H i j i' j' Hi Hj Hi' Hj'.
    rewrite (H i j Hi Hj), (H i' j' Hi' Hj'). reflexivity.
  - intros H i j Hi Hj. apply H; lia.
Qed.

Lemma solvedb_spec (st : CubeState) :
  solvedb st = true <-> allFaces likeFirst st.
Proof.
  unfold solvedb, allFaces. rewrite forallb_forall, List.Forall_forall.
  split; intros H f Hf; apply likeFirstb_spec, H, Hf.
Qed.

(** ** [getMoveFunction] and [executeMove] *)

Lemma getMoveFunction_valid (move : string) :
  In move CubeMove ->
  exists f, (forall st, getMoveFunction move st = (Ok f, st)) /\ safe f.
Proof.
  intros H. unfold CubeMove in H. cbn [In] in H.
  repeat (destruct H as [<-|H];
          [eexists; split; [intros st; reflexivity | auto 10 with cube] | ]).
  destruct H.
Qed.

Lemma getMoveFunction_invalid (move : string) (st : CubeState) :
  ~ In move CubeMove ->
  getMoveFunction move st = (Throw (InvalidMove move), st).
Proof.
  intros H. unfold getMoveFunction.
  repeat match goal with
  | |- context [String.eqb move ?s] =>
      destruct (String.eqb_spec move s) as [->|_];
      [exfalso; apply H; unfold CubeMove; cbn [In]; tauto | ]
  end.
  reflexivity.
Qed.

(** [executeMove] once the closure is known and has run. *)
Lemma executeMove_run (move : string) (f : M unit) (st st1 : CubeState) :
  getMoveFunction move st = (Ok f, st) ->
  f st = (Ok tt, st1) ->
  shaped st1 ->
  executeMove move st
  = (Ok tt, mkCubeState (faces st1) (solvedb st1) (moveHistory st1 ++ [move])).
Proof.
  intros Hf E1 S1. unfold executeMove, bind. rewrite Hf, E1.
  unfold pushHistory, checkSolved. rewrite isSolved_spec by exact S1.
  reflexivity.
Qed.

Lemma executeMove_shaped (move : string) (st : CubeState) :
  In move CubeMove -> shaped st ->
  exists st', executeMove move st = (Ok tt, st') /\ shaped st' /\
    solved st' = solvedb st' /\
    moveHistory st' = moveHistory st ++ [move] /\
    forall c, countColor c st' = countColor c st.
Proof.
  intros Hin Hst.
  destruct (getMoveFunction_valid move Hin) as (f & Hf & Hsafe).
  destruct (Hsafe st Hst) as (st1 & E1 & S1 & _ & T1 & C1).
  exists (mkCubeState (faces st1) (solvedb st1) (moveHistory st1 ++ [move])).
  split; [by apply executeMove_run with f | ].
  split; [exact S1 | split; [reflexivity | split]].
  - cbn [moveHistory]. by rewrite T1.
  - exact C1.
Qed.

Lemma executeMove_invalid (move : string) (st : CubeState) :
  ~ In move CubeMove ->
  executeMove move st = (Throw (InvalidMove move), st).
Proof.
  intros H. unfold executeMove, bind.
  by rewrite getMoveFunction_invalid.
Qed.

Lemma executeMoves_shaped (moves : list string) (st : CubeState) :
  Forall (fun m => In m CubeMove) moves -> shaped st ->
  exists st', executeMoves moves st = (Ok tt, st') /\ shaped st' /\
    forall c, countColor c st' = countColor c st.
Proof.
  intros Hmoves. revert st.
  induction Hmoves as [|m rest Hm _ IH]; intros st Hst; cbn [executeMoves].
  - exists st. by repeat split.
  - destruct (executeMove_shaped m st Hm Hst) as (st1 & E1 & S1 & _ & _ & C1).
    destruct (IH st1 S1) as (st2 & E2 & S2 & C2).
    exists st2. unfold bind. rewrite E1, E2.
    split; [reflexivity | split; [exact S2 | ]].
    intros c. rewrite C2. apply C1.
Qed.

(** A scramble is a sequence of [executeMove] calls with valid tokens. *)
Lemma scramble_executeMoves (draws : list nat) :
  Forall (fun k => k < 12) draws ->
  exists moves, length moves = length draws /\
    Forall (fun m => In m CubeMove) moves /\
    forall st, scramble draws st = executeMoves moves st.
Proof.
  induction 1 as [|k rest Hk _ (moves & Hlen & Hvalid & Hrun)].
  - exists []. by repeat split.
  - assert (Hm : exists m, nth_error allMoves k = Some m /\ In m CubeMove).
    { do 12 (destruct k as [|k];
             [eexists; split; [reflexivity | unfold CubeMove; cbn [In]; tauto] | ]).
      lia. }
    destruct Hm as (m & Hnth & Hin).
    exists (m :: moves). split; [cbn; by rewrite Hlen | ].
    split; [by constructor | ].
    intros st. cbn [scramble executeMoves]. rewrite Hnth.
    unfold bind. destruct (executeMove m st) as [[[]|e] st1]; [apply Hrun | reflexivity].
Qed.

Lemma item_outside (temp : list string) (k : nat) (st : CubeState) :
  length temp = 3 -> ~ k < 3 -> item temp k st = (Throw OutOfRange, st).
Proof.
  intros Hlen Hk. unfold item.
  destruct (nth_error temp k) as [v|] eqn:E; [ | reflexivity].
  exfalso. apply Hk. rewrite <- Hlen. apply nth_error_Some. by rewrite E.
Qed.

Lemma shaped_stickers (st : CubeState) : shaped st -> length (stickers st) = 54.
Proof. intros H. open_state st H. reflexivity. Qed.

Lemma shaped_new : shaped newRubiksCube.
Proof. reflexivity. Qed.

(** ** Fourth powers of the quarter turns *)

(** The quarter turns of U, D, L, R and F have order four on every 3x3
    state: four applications restore the whole engine state. *)
Lemma fourTimes_UDLRF (st : CubeState) :
  shaped st ->
  Forall (fun m => fourTimes m st = (Ok tt, st))
         [moveU; moveD; moveL; moveR; moveF].
Proof.
  intros H. open_state st H.
  repeat constructor; vm_compute; reflexivity.
Qed.

(** C1 (fails on the code for token B).  From the state reached by
    [executeMove('R')] on a new cube, four [moveB] in succession, and
    likewise four [executeMove('B')], do not restore the faces: the top
    row of the top face comes back as G W W instead of W W G, the bottom
    row of the bottom face as B Y Y instead of Y Y B. *)
Theorem moveB_four_times_not_identity :
  executeMove "R" newRubiksCube = (Ok tt, afterR) /\
  shaped afterR /\
  (exists st', fourTimes moveB afterR = (Ok tt, st') /\
     faces st' <> faces afterR /\
     rowOf (top (faces afterR)) 0 = ["W"; "W"; "G"] /\
     rowOf (top (faces st')) 0 = ["G"; "W"; "W"] /\
     rowOf (bottom (faces afterR)) 2 = ["Y"; "Y"; "B"] /\
     rowOf (bottom (faces st')) 2 = ["B"; "Y"; "Y"]) /\
  (exists st', executeMoves ["B"; "B"; "B"; "B"] afterR = (Ok tt, st') /\
     faces st' <> faces afterR).
Proof.
  split; [vm_compute; reflexivity | split; [reflexivity | split]].
  - eexists. split; [vm_compute; reflexivity | ].
    split; [discriminate | ]. repeat split.
  - eexists. split; [vm_compute; reflexivity | discriminate].
Qed.

(** ** Sticker counts *)

(** C2.  Every finite sequence of [executeMove] calls with valid tokens,
    started on a new cube, runs to the end, and in the state it reaches each
    of the six colours is carried by exactly 9 of the 54 stickers. *)
Theorem sticker_count_invariant (moves : list string) :
  Forall (fun m => In m CubeMove) moves ->
  exists st, executeMoves moves newRubiksCube = (Ok tt, st) /\
    length (stickers st) = 54 /\
    forall c, In c COLORS -> countColor c st = 9.
Proof.
  intros Hmoves.
  destruct (executeMoves_shaped moves newRubiksCube Hmoves shaped_new)
    as (st & E & S & C).
  exists st. split; [exact E | split; [by apply shaped_stickers | ]].
  intros c Hc. rewrite C. unfold COLORS in Hc. cbn [In] in Hc.
  repeat (destruct Hc as [<-|Hc]; [reflexivity | ]). destruct Hc.
Qed.

Lemma sticker_count_invariant_witness :
  exists st, executeMoves ["R"; "U'"; "B2"] newRubiksCube = (Ok tt, st) /\
    length (stickers st) = 54 /\
    forall c, In c COLORS -> countColor c st = 9.
Proof.
  apply (sticker_count_invariant ["R"; "U'"; "B2"]).
  repeat (constructor; [unfold CubeMove; cbn [In]; tauto | ]).
  constructor.
Defined.

(** ** The D quarter turn *)

(** C3.  On every 3x3 state [executeMove('D')] turns the bottom face a
    quarter clockwise (sticker [(i, j)] goes to [(j, 2 - i)], which is what
    [rotateFace] returns) and moves the bottom rows one step along
    front -> left -> back -> right -> front, where, as in the description of
    U, an arrow X -> Y means that X receives the old row of Y; every other
    row of the four side faces and the top face stay.  Under
    [executeMove('U')] the top rows follow left -> front -> right -> back ->
    left in the same reading: the row of front goes to left under U and to
    right under D, the opposite sense. *)
Theorem moveD_bottom_rows_cycle (st : CubeState) :
  shaped st ->
  (exists st', executeMove "D" st = (Ok tt, st') /\
     rotateFace (bottom (faces st)) st = (Ok (bottom (faces st')), st) /\
     (forall i j, i < 3 -> j < 3 ->
        cell (bottom (faces st')) j (2 - i) = cell (bottom (faces st)) i j) /\
     rowOf (front (faces st')) 2 = rowOf (left (faces st)) 2 /\
     rowOf (left (faces st')) 2 = rowOf (back (faces st)) 2 /\
     rowOf (back (faces st')) 2 = rowOf (right (faces st)) 2 /\
     rowOf (right (faces st')) 2 = rowOf (front (faces st)) 2 /\
     (forall n i, In n [f_front; f_left; f_back; f_right] -> i < 2 ->
        rowOf (getFace n (faces st')) i = rowOf (getFace n (faces st)) i) /\
     top (faces st') = top (faces st)) /\
  (exists st', executeMove "U" st = (Ok tt, st') /\
     rowOf (left (faces st')) 0 = rowOf (front (faces st)) 0 /\
     rowOf (front (faces st')) 0 = rowOf (right (faces st)) 0 /\
     rowOf (right (faces st')) 0 = rowOf (back (faces st)) 0 /\
     rowOf (back (faces st')) 0 = rowOf (left (faces st)) 0).
Proof.
  intros H. open_state st H. split.
  - eexists. split.
    { eapply executeMove_run;
        [reflexivity | vm_compute; reflexivity | reflexivity]. }
    split; [vm_compute; reflexivity | ].
    split.
    { intros i j Hi Hj.
      destruct i as [|[|[|i]]]; try lia;
        destruct j as [|[|[|j]]]; try lia; reflexivity. }
    do 4 (split; [reflexivity | ]).
    split; [ | reflexivity].
    intros n i Hn Hi. cbn [In] in Hn.
    destruct i as [|[|i]]; try lia;
      repeat (destruct Hn as [<-|Hn]; [reflexivity | ]); destruct Hn.
  - eexists. split.
    { eapply executeMove_run;
        [reflexivity | vm_compute; reflexivity | reflexivity]. }
    repeat split.
Qed.

Lemma moveD_bottom_rows_cycle_witness :
  exists st', executeMove "D" afterR = (Ok tt, st') /\
    rowOf (right (faces st')) 2 = rowOf (front (faces afterR)) 2.
Proof.
  destruct (moveD_bottom_rows_cycle afterR) as [(st' & E & _ & _ & _ & _ & _ & R & _) _].
  - reflexivity.
  - exists st'. split; [exact E | exact R].
Defined.

(** ** The [solved] flag *)

(** C5 as stated fails for [setState]: the engine takes over the flag of the
    snapshot.  After [setState(staleSnapshot)] the flag is [true] although
    the front face carries two colours. *)
Lemma setState_keeps_stale_flag :
  setState staleSnapshot newRubiksCube = (Ok tt, staleSnapshot) /\
  shaped staleSnapshot /\
  ~ (solved staleSnapshot = true <-> allFaces uniform staleSnapshot).
Proof.
  split; [reflexivity | split; [reflexivity | ]].
  intros [H _]. specialize (H eq_refl).
  unfold allFaces in H. apply List.Forall_inv in H.
  specialize (H 0 0 0 2). cbn in H.
  assert (E : "G" = "Y") by (apply H; lia). discriminate E.
Qed.

(** C5, amended.  After every successful [executeMove] on a 3x3 state the
    flag says exactly whether each of the six faces has nine identical
    stickers.  [setState] recomputes nothing: the engine state becomes the
    snapshot, flag included, so the flag is right after [setState] exactly
    when it was right in the snapshot. *)
Theorem solved_flag_recomputed_by_executeMove
    (st : CubeState) (move : string) (st' snapshot : CubeState) :
  (shaped st -> executeMove move st = (Ok tt, st') ->
     (solved st' = true <-> allFaces uniform st')) /\
  setState snapshot st = (Ok tt, snapshot).
Proof.
  split; [ | reflexivity].
  intros Hst E.
  destruct (in_dec string_dec move CubeMove) as [Hin|Hout].
  - destruct (executeMove_shaped move st Hin Hst) as (st1 & E1 & _ & F1 & _).
    rewrite E1 in E. injection E as <-. rewrite F1, solvedb_spec.
    unfold allFaces. rewrite !List.Forall_forall.
    split; intros H f Hf; apply likeFirst_uniform, H, Hf.
  - rewrite executeMove_invalid in E by exact Hout. discriminate E.
Qed.

Lemma solved_flag_recomputed_by_executeMove_witness :
  solved afterR = true <-> allFaces uniform afterR.
Proof.
  apply (solved_flag_recomputed_by_executeMove newRubiksCube "R" afterR
           staleSnapshot).
  - reflexivity.
  - vm_compute. reflexivity.
Defined.

(** ** Tokens outside and inside the alphabet *)

(** C6.  A token outside the 18 values of [CubeMove] makes [executeMove]
    throw [InvalidMove] and leaves the engine state (faces, flag, history) as
    it was; with a token of the alphabet the call on a 3x3 state returns
    normally. *)
Theorem executeMove_rejects_unknown_token (move : string) (st : CubeState) :
  (~ In move CubeMove ->
     executeMove move st = (Throw (InvalidMove move), st)) /\
  (In move CubeMove -> shaped st ->
     exists st', executeMove move st = (Ok tt, st')).
Proof.
  split.
  - apply executeMove_invalid.
  - intros Hin Hst.
    destruct (executeMove_shaped move st Hin Hst) as (st' & E & _).
    by exists st'.
Qed.

Lemma executeMove_rejects_unknown_token_witness :
  executeMove "X" afterR = (Throw (InvalidMove "X"), afterR) /\
  exists st', executeMove "F'" afterR = (Ok tt, st').
Proof.
  split.
  - apply (executeMove_rejects_unknown_token "X" afterR).
    unfold CubeMove. cbn [In]. intros H.
    repeat (destruct H as [H|H]; [discriminate H | ]). exact H.
  - apply (executeMove_rejects_unknown_token "F'" afterR).
    + unfold CubeMove. cbn [In]. tauto.
    + reflexivity.
Defined.

(** ** Solved detection *)

(** C7.  [isSolved()] is [true] on the state built by the constructor, and
    after any single one of the 18 moves applied to that state it is
    [false]. *)
Theorem isSolved_new_cube_and_single_move (move : string) :
  isSolved newRubiksCube = (Ok true, newRubiksCube) /\
  (In move CubeMove ->
     exists st', executeMove move newRubiksCube = (Ok tt, st') /\
       isSolved st' = (Ok false, st')).
Proof.
  split; [reflexivity | ].
  intros H. unfold CubeMove in H. cbn [In] in H.
  repeat (destruct H as [<-|H];
          [eexists; split; vm_compute; reflexivity | ]).
  destruct H.
Qed.

Lemma isSolved_new_cube_and_single_move_witness :
  exists st', executeMove "B2" newRubiksCube = (Ok tt, st') /\
    isSolved st' = (Ok false, st').
Proof.
  apply (isSolved_new_cube_and_single_move "B2").
  unfold CubeMove. cbn [In]. tauto.
Defined.

(** C9.  [isSolved()] never changes the engine state; on a 3x3 state it
    returns [true] exactly when, on each face separately, all nine stickers
    equal the first sticker of that face; in particular any six colours,
    distinct or not, painted one per face give [true]. *)
Theorem isSolved_pure_per_face (st : CubeState)
    (c1 c2 c3 c4 c5 c6 : string) (flag : bool) (history : list string) :
  snd (isSolved st) = st /\
  (shaped st ->
     exists b, isSolved st = (Ok b, st) /\
       (b = true <-> allFaces likeFirst st)) /\
  isSolved (paintedCube c1 c2 c3 c4 c5 c6 flag history)
  = (Ok true, paintedCube c1 c2 c3 c4 c5 c6 flag history).
Proof.
  split; [apply readOnly_isSolved | split].
  - intros H. exists (solvedb st).
    split; [by apply isSolved_spec | apply solvedb_spec].
  - rewrite isSolved_spec by reflexivity. f_equal. f_equal.
    unfold solvedb, paintedCube, likeFirstb. cbn.
    by rewrite !String.eqb_refl.
Qed.

Lemma isSolved_pure_per_face_witness :
  exists b, isSolved afterR = (Ok b, afterR) /\
    (b = true <-> allFaces likeFirst afterR).
Proof.
  apply (isSolved_pure_per_face afterR "G" "G" "R" "R" "W" "W" false []).
  reflexivity.
Defined.

(** ** Totality and shape *)

Lemma readRow_outside (n : FaceName) (i : nat) (st : CubeState) :
  shaped st -> ~ i < 3 -> readRow n i st = (Throw OutOfRange, st).
Proof.
  intros H Hi. open_state st H.
  destruct i as [|[|[|i]]]; try lia.
  destruct n; unfold readRow, bind; cbn; destruct i; reflexivity.
Qed.

Lemma writeRow_outside (n : FaceName) (i : nat) (row : list string)
    (st : CubeState) :
  shaped st -> ~ i < 3 -> writeRow n i row st = (Throw OutOfRange, st).
Proof.
  intros H Hi. open_state st H.
  destruct i as [|[|[|i]]]; try lia.
  destruct n; reflexivity.
Qed.

(** C10.  On a state whose six faces are 3x3 grids, the closure that
    [getMoveFunction] returns for any of the 18 tokens runs to the end and
    leaves six 3x3 grids, and so does [executeMove] as a whole.  Every array
    access of the run is checked: on a 3x3 grid a cell read or written at a
    row or column index outside 0..2, a row read or written at an index
    outside 0..2, and an item of a three-element temporary read outside
    0..2, would stop the run with [OutOfRange]; a run that returns normally
    has therefore used indices 0 through 2 only. *)
Theorem executeMove_total_and_shape_preserving
    (st : CubeState) (move : string) :
  shaped st -> In move CubeMove ->
  (exists f st1, getMoveFunction move st = (Ok f, st) /\
     f st = (Ok tt, st1) /\ shaped st1) /\
  (exists st', executeMove move st = (Ok tt, st') /\ shaped st') /\
  (forall f i j v s, grid3b f = true -> ~ (i < 3 /\ j < 3) ->
     getAt f i j s = (Throw OutOfRange, s) /\
     setAt f i j v s = (Throw OutOfRange, s)) /\
  (forall n i row, ~ i < 3 ->
     readRow n i st = (Throw OutOfRange, st) /\
     writeRow n i row st = (Throw OutOfRange, st)) /\
  (forall temp k s, length temp = 3 -> ~ k < 3 ->
     item temp k s = (Throw OutOfRange, s)).
Proof.
  intros Hst Hin. split; [ | split; [ | split; [ | split]]].
  - destruct (getMoveFunction_valid move Hin) as (f & Hf & Hsafe).
    destruct (Hsafe st Hst) as (st1 & E1 & S1 & _).
    exists f, st1. by repeat split.
  - destruct (executeMove_shaped move st Hin Hst) as (st' & E & S & _).
    by exists st'.
  - intros f i j v s Hf Hij.
    split; [by apply getAt_outside | by apply setAt_outside].
  - intros n i row Hi.
    split; [by apply readRow_outside | by apply writeRow_outside].
  - intros temp k s. apply item_outside.
Qed.

Lemma executeMove_total_and_shape_preserving_witness :
  exists st', executeMove "L'" afterR = (Ok tt, st') /\ shaped st'.
Proof.
  apply (executeMove_total_and_shape_preserving afterR "L'").
  - reflexivity.
  - unfold CubeMove. cbn [In]. tauto.
Defined.

(** ** Sessions *)

(** C4.  A move requested on a session whose status is [completed] is not
    executed and throws nothing: the response carries the current state of
    the session's engine with [nextAction = "finish"], and the registry is
    left exactly as it was, so the engine (faces, flag, history), the
    session's [cubeState], its [lastActivity] and its status [completed] are
    the same before and after. *)
Theorem manipulateCube_on_completed_session
    (games : gmap string Game.t) (gameId move : string) (now now' : Z)
    (game : Game.t) :
  games !! gameId = Some game ->
  status (Game.session game) = completed ->
  manipulateCube gameId move now now' games
  = (Ok (CubeResponse.mk gameId (Game.cube game) (Some "finish")), games).
Proof.
  intros Hget Hdone. unfold manipulateCube. rewrite Hget. cbn zeta.
  rewrite Hdone. unfold getState.
  destruct game as [cube session]. cbn [Game.cube Game.session].
  by rewrite (insert_id games gameId _ Hget).
Qed.

(** C8.  [finish] throws [SessionNotFound] exactly when the id is absent,
    and then changes nothing.  For an id that is present, whether or not its
    cube is solved, the call returns the engine state, sets the session's
    status to [completed] and its [lastActivity] to the current time, and
    leaves the engine, the session's [cubeState], [id] and [createdAt], and
    every other entry as they were. *)
Theorem finish_completes_session
    (games : gmap string Game.t) (gameId : string) (now : Z) :
  (games !! gameId = None ->
     finish gameId now games = (Throw (SessionNotFound gameId), games)) /\
  (forall game, games !! gameId = Some game ->
     exists games' game',
       finish gameId now games
       = (Ok (CubeResponse.mk gameId (Game.cube game) None), games') /\
       games' !! gameId = Some game' /\
       status (Game.session game') = completed /\
       lastActivity (Game.session game') = now /\
       cubeState (Game.session game') = cubeState (Game.session game) /\
       id (Game.session game') = id (Game.session game) /\
       createdAt (Game.session game') = createdAt (Game.session game) /\
       Game.cube game' = Game.cube game /\
       forall other, other <> gameId -> games' !! other = games !! other) /\
  ((exists e, fst (finish gameId now games) = Throw e) <->
   games !! gameId = None).
Proof.
  split; [ | split].
  - intros Hnone. unfold finish. by rewrite Hnone.
  - intros game Hget. unfold finish. rewrite Hget. cbn zeta. unfold getState.
    eexists. eexists. split; [reflexivity | ].
    split; [apply lookup_insert_eq | ].
    do 6 (split; [reflexivity | ]).
    intros other Hother. by apply lookup_insert_ne.
  - unfold finish. destruct (games !! gameId) as [game|] eqn:Hget.
    + cbn. split; [intros [e He]; discriminate He | discriminate].
    + cbn. split; [reflexivity | intros _; by eexists].
Qed.

Lemma manipulateCube_on_completed_session_witness :
  manipulateCube "done" "U" 3000 3001 sampleGames
  = (Ok (CubeResponse.mk "done" afterR (Some "finish")), sampleGames).
Proof.
  apply (manipulateCube_on_completed_session sampleGames "done" "U" 3000 3001
           (Game.mk afterR (sampleSession "done" completed))).
  - apply lookup_insert_eq.
  - reflexivity.
Defined.

Lemma finish_completes_session_witness :
  exists games' game',
    finish "open" 3000 sampleGames
    = (Ok (CubeResponse.mk "open" afterR None), games') /\
    games' !! "open" = Some game' /\
    status (Game.session game') = completed /\
    lastActivity (Game.session game') = 3000%Z /\
    cubeState (Game.session game') = afterR /\
    solved (Game.cube game') = false.
Proof.
  destruct (proj1 (proj2 (finish_completes_session sampleGames "open" 3000))
              (Game.mk afterR (sampleSession "open" active)))
    as (games' & game' & E & L & S & T & C & _ & _ & K & _).
  - unfold sampleGames. rewrite lookup_insert_ne by discriminate.
    apply lookup_insert_eq.
  - exists games', game'. rewrite K. by repeat split.
Defined.

(** The active branch of [manipulateCube], for comparison: a valid move on
    an active session with a 3x3 cube is executed, the session's [cubeState]
    is the engine's new state, and the session is completed exactly when
    that state is flagged solved. *)
Lemma manipulateCube_on_active_session
    (games : gmap string Game.t) (gameId move : string) (now now' : Z)
    (game : Game.t) :
  games !! gameId = Some game ->
  status (Game.session game) = active ->
  shaped (Game.cube game) -> In move CubeMove ->
  exists st' game',
    executeMove move (Game.cube game) = (Ok tt, st') /\
    manipulateCube gameId move now now' games
    = (Ok (CubeResponse.mk gameId st' (nextActionOf st')),
       <[gameId := game']> games) /\
    Game.cube game' = st' /\
    cubeState (Game.session game') = st' /\
    lastActivity (Game.session game') = now' /\
    (status (Game.session game') = completed <-> solved st' = true).
Proof.
  intros Hget Hact Hst Hin.
  destruct (executeMove_shaped move _ Hin Hst) as (st' & E & _).
  exists st'. eexists. split; [exact E | ].
  unfold manipulateCube. rewrite Hget. cbn zeta. rewrite Hact.
  unfold bind. rewrite E. unfold getState.
  split; [reflexivity | ]. cbn.
  do 3 (split; [reflexivity | ]).
  destruct (solved st'); split; congruence.
Qed.

(** * Further properties *)

(** ** [rotateFace] on square grids of any size *)

Lemma update_spec {A : Type} (l : list A) (i : nat) (v : A) :
  i < length l ->
  exists l', update l i v = Some l' /\ length l' = length l /\
    forall k d, nth k l' d = if Nat.eqb k i then v else nth k l d.
Proof.
  revert i. induction l as [|x l IH]; intros i Hi; cbn [length] in Hi.
  - lia.
  - destruct i as [|i]; cbn [update].
    + exists (v :: l). split; [reflexivity | split; [reflexivity | ]].
      intros [|k] d; reflexivity.
    + destruct (IH i) as (l' & E & Hlen & Hnth); [lia | ].
      rewrite E. exists (x :: l').
      split; [reflexivity | split; [cbn; by rewrite Hlen | ]].
      intros [|k] d; [reflexivity | apply Hnth].
Qed.

Lemma square_row (n : nat) (f : Face) (i : nat) :
  square n f -> i < n -> length (nth i f []) = n.
Proof.
  intros [Hlen Hrows] Hi. rewrite List.Forall_forall in Hrows.
  apply Hrows, nth_In. lia.
Qed.

Lemma getAt_square (n : nat) (f : Face) (i j : nat) (st : CubeState) :
  square n f -> i < n -> j < n -> getAt f i j st = (Ok (cell f i j), st).
Proof.
  intros Hf Hi Hj. unfold getAt, cell, rowOf.
  rewrite (nth_error_nth' f []) by (destruct Hf; lia).
  rewrite (nth_error_nth' _ "") by (by rewrite (square_row n)).
  reflexivity.
Qed.

Lemma setAt_square (n : nat) (f : Face) (i j : nat) (v : string)
    (st : CubeState) :
  square n f -> i < n -> j < n ->
  exists f', setAt f i j v st = (Ok f', st) /\ square n f' /\
    forall a b, cell f' a b
                = if Nat.eqb a i && Nat.eqb b j then v else cell f a b.
Proof.
  intros Hf Hi Hj. pose proof (square_row n f i Hf Hi) as Hrow.
  destruct Hf as [Hlen Hrows]. unfold setAt.
  rewrite (nth_error_nth' f []) by lia.
  destruct (update_spec (nth i f []) j v) as (row' & E1 & L1 & N1); [lia | ].
  destruct (update_spec f i row') as (f' & E2 & L2 & N2); [lia | ].
  rewrite E1, E2. exists f'. split; [reflexivity | split; [split | ]].
  - lia.
  - rewrite List.Forall_forall in *. intros row Hin.
    destruct (In_nth f' row [] Hin) as (k & Hk & <-).
    rewrite N2. destruct (Nat.eqb k i); [lia | ].
    apply Hrows, nth_In. lia.
  - intros a b. unfold cell, rowOf. rewrite N2.
    destruct (Nat.eqb_spec a i) as [->|_]; cbn [andb]; [ | reflexivity].
    apply N1.
Qed.

Lemma square_blank (n : nat) : square n (repeat (repeat "" n) n).
Proof.
  split; [apply repeat_length | ].
  rewrite List.Forall_forall. intros row Hin.
  apply repeat_spec in Hin. subst row. apply repeat_length.
Qed.

(** The inner loop: row [i] of [face] lands in column [n - 1 - i]. *)
Lemma rotateFace_inner (n : nat) (face : Face) (i : nat) (js : list nat)
    (rot : Face) (st : CubeState) :
  square n face -> i < n -> Forall (fun j => j < n) js -> square n rot ->
  exists rot',
    forEach js (fun j rotated =>
                  let* v := getAt face i j in
                  setAt rotated j (n - 1 - i) v) rot st = (Ok rot', st) /\
    square n rot' /\
    (forall j, In j js -> cell rot' j (n - 1 - i) = cell face i j) /\
    (forall a b, b <> n - 1 - i \/ ~ In a js -> cell rot' a b = cell rot a b).
Proof.
  intros Hface Hi Hjs. revert rot.
  induction Hjs as [|j0 rest Hj0 _ IH]; intros rot Hrot; cbn [forEach].
  - exists rot. split; [reflexivity | split; [exact Hrot | ]].
    split; [intros j [] | reflexivity].
  - unfold bind at 1. unfold bind at 1.
    rewrite (getAt_square n face i j0 st Hface Hi Hj0).
    destruct (setAt_square n rot j0 (n - 1 - i) (cell face i j0) st Hrot Hj0)
      as (rot1 & E1 & S1 & C1); [lia | ].
    rewrite E1.
    destruct (IH rot1 S1) as (rot' & E & S & Hin & Hout).
    exists rot'. split; [exact E | split; [exact S | split]].
    + intros j [<-|Hj]; [ | by apply Hin].
      destruct (in_dec Nat.eq_dec j0 rest) as [Hyes|Hno]; [by apply Hin | ].
      rewrite Hout by (by right). rewrite C1. by rewrite !Nat.eqb_refl.
    + intros a b Hab. rewrite Hout.
      * rewrite C1.
        destruct (Nat.eqb_spec a j0) as [->|_]; [ | reflexivity].
        destruct (Nat.eqb_spec b (n - 1 - i)) as [->|_]; [ | reflexivity].
        exfalso. destruct Hab as [Hb|Ha]; [by apply Hb | apply Ha; by left].
      * destruct Hab as [Hb|Ha]; [by left | right].
        intros Hin'. apply Ha. by right.
Qed.

(** The outer loop over the rows [is] of [face]. *)
Lemma rotateFace_outer (n : nat) (face : Face) (rows : list nat)
    (rot : Face) (st : CubeState) :
  square n face -> Forall (fun i => i < n) rows -> square n rot ->
  exists rot',
    forEach rows (fun i rotated =>
      forEach (seq 0 n) (fun j rotated =>
                  let* v := getAt face i j in
                  setAt rotated j (n - 1 - i) v) rotated) rot st
    = (Ok rot', st) /\
    square n rot' /\
    (forall i j, In i rows -> j < n ->
       cell rot' j (n - 1 - i) = cell face i j) /\
    (forall a b, (forall i, In i rows -> b <> n - 1 - i) ->
       cell rot' a b = cell rot a b).
Proof.
  intros Hface Hrows. revert rot.
  assert (Hseq : Forall (fun j => j < n) (seq 0 n)).
  { rewrite List.Forall_forall. intros j Hj. apply in_seq in Hj. lia. }
  induction Hrows as [|i0 rest Hi0 Hrest IH]; intros rot Hrot; cbn [forEach].
  - exists rot. split; [reflexivity | split; [exact Hrot | ]].
    split; [intros i j [] | reflexivity].
  - unfold bind at 1.
    destruct (rotateFace_inner n face i0 (seq 0 n) rot st Hface Hi0 Hseq Hrot)
      as (rot1 & E1 & S1 & In1 & Out1).
    rewrite E1.
    destruct (IH rot1 S1) as (rot' & E & S & Hin & Hout).
    exists rot'. split; [exact E | split; [exact S | split]].
    + intros i j [<-|Hi] Hj; [ | by apply Hin].
      destruct (in_dec Nat.eq_dec i0 rest) as [Hyes|Hno]; [by apply Hin | ].
      rewrite Hout.
      * apply In1. apply in_seq. lia.
      * intros i Hi E'. apply Hno.
        rewrite List.Forall_forall in Hrest. specialize (Hrest i Hi).
        assert (i = i0) as -> by lia. exact Hi.
    + intros a b Hb. rewrite Hout.
      * apply Out1. left. apply Hb. by left.
      * intros i Hi. apply Hb. by right.
Qed.

(** X1.  On a grid of [n] rows of [n] stickers, for any [n], [rotateFace]
    returns normally, touches no index outside the grid and leaves the
    engine state alone; its result is again [n] by [n], and the sticker at
    row [i], column [j] of the argument is at row [j], column [n - 1 - i] of
    the result: a quarter turn clockwise. *)
Theorem rotateFace_quarter_turn (n : nat) (face : Face) (st : CubeState) :
  square n face ->
  exists rotated, rotateFace face st = (Ok rotated, st) /\
    square n rotated /\
    forall i j, i < n -> j < n ->
      cell rotated j (n - 1 - i) = cell face i j.
Proof.
  intros Hface. unfold rotateFace.
  replace (length face) with n by (by destruct Hface).
  assert (Hseq : Forall (fun i => i < n) (seq 0 n)).
  { rewrite List.Forall_forall. intros i Hi. apply in_seq in Hi. lia. }
  destruct (rotateFace_outer n face (seq 0 n) (repeat (repeat "" n) n) st
              Hface Hseq (square_blank n)) as (rot' & E & S & Hin & _).
  exists rot'. split; [exact E | split; [exact S | ]].
  intros i j Hi Hj. apply Hin; [apply in_seq; lia | exact Hj].
Qed.

Lemma rotateFace_quarter_turn_witness :
  exists rotated,
    rotateFace (grid "a" "b" "c" "d" "e" "f" "g" "h" "i") newRubiksCube
    = (Ok rotated, newRubiksCube) /\
    square 3 rotated /\
    forall i j, i < 3 -> j < 3 ->
      cell rotated j (3 - 1 - i)
      = cell (grid "a" "b" "c" "d" "e" "f" "g" "h" "i") i j.
Proof.
  apply (rotateFace_quarter_turn 3).
  split; [reflexivity | repeat constructor].
Defined.

(** Two [n] by [n] grids with the same stickers are equal. *)
Lemma square_ext (n : nat) (f g : Face) :
  square n f -> square n g ->
  (forall i j, i < n -> j < n -> cell f i j = cell g i j) ->
  f = g.
Proof.
  intros Hf Hg Hcells.
  apply (nth_ext f g [] []); [destruct Hf, Hg; congruence | ].
  intros i Hi. assert (Hi' : i < n) by (destruct Hf; lia).
  apply (nth_ext _ _ "" "").
  - by rewrite (square_row n f), (square_row n g).
  - intros j Hj. rewrite (square_row n f) in Hj by assumption.
    by apply Hcells.
Qed.

(** The quarter turn read from the result: the sticker at [(a, b)] of the
    rotated grid comes from [(n - 1 - b, a)]. *)
Lemma rotateFace_source (n : nat) (face : Face) (st : CubeState) :
  square n face ->
  exists rotated, rotateFace face st = (Ok rotated, st) /\
    square n rotated /\
    forall a b, a < n -> b < n ->
      cell rotated a b = cell face (n - 1 - b) a.
Proof.
  intros Hface. unfold rotateFace.
  replace (length face) with n by (by destruct Hface).
  assert (Hseq : Forall (fun i => i < n) (seq 0 n)).
  { rewrite List.Forall_forall. intros i Hi. apply in_seq in Hi. lia. }
  destruct (rotateFace_outer n face (seq 0 n) (repeat (repeat "" n) n) st
              Hface Hseq (square_blank n)) as (r & E & S & C & _).
  exists r. split; [exact E | split; [exact S | ]].
  intros a b Ha Hb.
  rewrite <- (C (n - 1 - b) a) by (try apply in_seq; lia).
  f_equal. lia.
Qed.

(** X2.  On any [n] by [n] grid four [rotateFace] in a row give the grid
    back, and [rotateFaceCounterClockwise] undoes [rotateFace], whichever
    of the two is applied first. *)
Theorem rotateFace_order_four (n : nat) (face : Face) (st : CubeState) :
  square n face ->
  (let* r1 := rotateFace face in
   let* r2 := rotateFace r1 in
   let* r3 := rotateFace r2 in
   rotateFace r3) st = (Ok face, st) /\
  (let* r := rotateFace face in rotateFaceCounterClockwise r) st
  = (Ok face, st) /\
  (let* r := rotateFaceCounterClockwise face in rotateFace r) st
  = (Ok face, st).
Proof.
  intros Hface.
  destruct (rotateFace_source n face st Hface) as (r1 & E1 & S1 & C1).
  destruct (rotateFace_source n r1 st S1) as (r2 & E2 & S2 & C2).
  destruct (rotateFace_source n r2 st S2) as (r3 & E3 & S3 & C3).
  destruct (rotateFace_source n r3 st S3) as (r4 & E4 & S4 & C4).
  assert (r4 = face) as ->.
  { apply (square_ext n); [assumption | assumption | ].
    intros a b Ha Hb.
    rewrite C4, C3, C2, C1 by lia. f_equal; lia. }
  unfold rotateFaceCounterClockwise, bind.
  by rewrite E1, E2, E3, E4.
Qed.

Lemma rotateFace_order_four_witness :
  (let* r := rotateFace (uniformFace "W") in rotateFaceCounterClockwise r)
    afterR = (Ok (uniformFace "W"), afterR).
Proof.
  apply (rotateFace_order_four 3 (uniformFace "W") afterR).
  split; [reflexivity | repeat constructor].
Defined.

(** ** Pairs of moves *)

(** Two [executeMove] calls in a row, once both closures are known and have
    run; the closures do not look at the flag or at the history. *)
Lemma executeMove_twice (a b : string) (fa fb : M unit)
    (st st1 : CubeState) (fs2 : Faces) :
  (forall s, getMoveFunction a s = (Ok fa, s)) ->
  (forall s, getMoveFunction b s = (Ok fb, s)) ->
  fa st = (Ok tt, st1) -> shaped st1 ->
  (forall flag history,
     fb (mkCubeState (faces st1) flag history)
     = (Ok tt, mkCubeState fs2 flag history)) ->
  forallb grid3b (faceValues fs2) = true ->
  (executeMove a;; executeMove b) st
  = (Ok tt, mkCubeState fs2 (solvedb (mkCubeState fs2 true []))
                        ((moveHistory st1 ++ [a]) ++ [b])).
Proof.
  intros Ha Hb E1 S1 E2 S2. unfold bind at 1.
  rewrite (executeMove_run a fa st st1 (Ha st) E1 S1).
  by rewrite (executeMove_run b fb _ _ (Hb _) (E2 _ _) S2).
Qed.

Ltac run_twice :=
  eapply executeMove_twice;
    [intros ?; reflexivity | intros ?; reflexivity
    | vm_compute; reflexivity | reflexivity
    | intros ? ?; vm_compute; reflexivity | reflexivity].

(** X3.  On every 3x3 state, for each of the faces U, D, L, R and F, a
    quarter turn followed by its counter turn, a counter turn followed by
    the quarter turn, and a half turn done twice give back the faces the
    state had; both tokens are appended to the history and the flag is
    recomputed from those faces. *)
Theorem executeMove_undo (st : CubeState) (a b : string) :
  shaped st -> In (a, b) undoPairs ->
  exists st', (executeMove a;; executeMove b) st = (Ok tt, st') /\
    faces st' = faces st /\
    moveHistory st' = moveHistory st ++ [a; b] /\
    solved st' = solvedb st.
Proof.
  intros H Hin. open_state st H.
  unfold undoPairs in Hin. cbn in Hin.
  repeat (destruct Hin as [E|Hin];
    [injection E as <- <-; eexists; split; [run_twice | ];
     split; [reflexivity | split; [ | reflexivity]];
     cbn [moveHistory]; by rewrite <- app_assoc | ]).
  destruct Hin.
Qed.

Lemma executeMove_undo_witness :
  exists st', (executeMove "F'";; executeMove "F") afterR = (Ok tt, st') /\
    faces st' = faces afterR /\
    moveHistory st' = moveHistory afterR ++ ["F'"; "F"] /\
    solved st' = solvedb afterR.
Proof.
  apply (executeMove_undo afterR "F'" "F").
  - reflexivity.
  - unfold undoPairs. cbn. tauto.
Defined.

(** X4.  Turns of opposite faces commute: for any token of U with any
    token of D, of L with R, of F with B, the two orders of execution lead
    from a 3x3 state to the same faces and the same flag. *)
Theorem opposite_turns_commute (st : CubeState) (a b : string) :
  shaped st -> In (a, b) oppositeTurns ->
  exists st1 st2,
    (executeMove a;; executeMove b) st = (Ok tt, st1) /\
    (executeMove b;; executeMove a) st = (Ok tt, st2) /\
    faces st1 = faces st2 /\ solved st1 = solved st2.
Proof.
  intros H Hin. open_state st H.
  unfold oppositeTurns in Hin. cbn in Hin.
  repeat (destruct Hin as [E|Hin];
    [injection E as <- <-; eexists; eexists;
     split; [run_twice | split; [run_twice | split; reflexivity]] | ]).
  destruct Hin.
Qed.

Lemma opposite_turns_commute_witness :
  exists st1 st2,
    (executeMove "F'";; executeMove "B2") afterR = (Ok tt, st1) /\
    (executeMove "B2";; executeMove "F'") afterR = (Ok tt, st2) /\
    faces st1 = faces st2 /\ solved st1 = solved st2.
Proof.
  apply (opposite_turns_commute afterR "F'" "B2").
  - reflexivity.
  - unfold oppositeTurns. cbn. tauto.
Defined.

(** ** Series of moves: history, centres, solved states *)

Ltac centers_by_evaluation :=
  intros st st' H E; open_state st H;
  vm_compute in E; injection E as <-; reflexivity.

Lemma moveU_centers : keepsCenters moveU.
Proof. centers_by_evaluation. Qed.

Lemma moveD_centers : keepsCenters moveD.
Proof. centers_by_evaluation. Qed.

Lemma moveR_centers : keepsCenters moveR.
Proof. centers_by_evaluation. Qed.

Lemma moveL_centers : keepsCenters moveL.
Proof. centers_by_evaluation. Qed.

Lemma moveF_centers : keepsCenters moveF.
Proof. centers_by_evaluation. Qed.

Lemma moveB_centers : keepsCenters moveB.
Proof. centers_by_evaluation. Qed.

Lemma keepsCenters_seq (m1 m2 : M unit) :
  safe m1 -> keepsCenters m1 -> keepsCenters m2 -> keepsCenters (m1;; m2).
Proof.
  intros Hsafe H1 H2 st st' Hst E.
  destruct (Hsafe st Hst) as (st1 & E1 & S1 & _).
  unfold bind in E. rewrite E1 in E.
  rewrite (H2 st1 st' S1 E). by apply H1.
Qed.

#[local] Hint Resolve moveU_centers moveD_centers moveR_centers moveL_centers
  moveF_centers moveB_centers keepsCenters_seq : cube.

Lemma getMoveFunction_centers (move : string) :
  In move CubeMove ->
  exists f, (forall st, getMoveFunction move st = (Ok f, st)) /\
    safe f /\ keepsCenters f.
Proof.
  intros H. unfold CubeMove in H. cbn [In] in H.
  repeat (destruct H as [<-|H];
          [eexists; split; [intros st; reflexivity | split; auto 10 with cube]
          | ]).
  destruct H.
Qed.

(** Everything one successful [executeMove] does to a 3x3 state. *)
Lemma executeMove_effect (move : string) (st : CubeState) :
  In move CubeMove -> shaped st ->
  exists st', executeMove move st = (Ok tt, st') /\ shaped st' /\
    solved st' = solvedb st' /\
    moveHistory st' = moveHistory st ++ [move] /\
    centers st' = centers st /\
    forall c, countColor c st' = countColor c st.
Proof.
  intros Hin Hst.
  destruct (getMoveFunction_centers move Hin) as (f & Hf & Hsafe & Hcen).
  destruct (Hsafe st Hst) as (st1 & E1 & S1 & _ & T1 & C1).
  exists (mkCubeState (faces st1) (solvedb st1) (moveHistory st1 ++ [move])).
  split; [by apply executeMove_run with f | ].
  split; [exact S1 | split; [reflexivity | split; [ | split]]].
  - cbn [moveHistory]. by rewrite T1.
  - exact (Hcen st st1 Hst E1).
  - exact C1.
Qed.

Lemma executeMoves_effect (moves : list string) (st : CubeState) :
  Forall (fun m => In m CubeMove) moves -> shaped st ->
  exists st', executeMoves moves st = (Ok tt, st') /\ shaped st' /\
    (solved st = solvedb st -> solved st' = solvedb st') /\
    moveHistory st' = moveHistory st ++ moves /\
    centers st' = centers st /\
    forall c, countColor c st' = countColor c st.
Proof.
  intros Hmoves. revert st.
  induction Hmoves as [|m rest Hm _ IH]; intros st Hst; cbn [executeMoves].
  - exists st. rewrite app_nil_r. by repeat split.
  - destruct (executeMove_effect m st Hm Hst)
      as (st1 & E1 & S1 & F1 & T1 & K1 & C1).
    destruct (IH st1 S1) as (st2 & E2 & S2 & F2 & T2 & K2 & C2).
    exists st2. unfold bind. rewrite E1, E2.
    split; [reflexivity | split; [exact S2 | ]].
    split; [intros _; by apply F2 | ].
    split; [rewrite T2, T1; by rewrite <- app_assoc | ].
    split; [congruence | ].
    intros c. rewrite C2. apply C1.
Qed.

Lemma executeMoves_app (pre post : list string) (st st' : CubeState) :
  executeMoves pre st = (Ok tt, st') ->
  executeMoves (pre ++ post) st = executeMoves post st'.
Proof.
  revert st. induction pre as [|m pre IH]; intros st E; cbn [executeMoves app] in *.
  - by injection E as <-.
  - unfold bind in *.
    destruct (executeMove m st) as [[[]|e] st1]; [by apply IH | discriminate E].
Qed.

(** X5.  Starting on a new cube, a series of valid tokens leaves exactly
    that series in [moveHistory], in order.  If the next token is not one
    of the 18, the series stops there with [InvalidMove]: the engine keeps
    the state the valid tokens produced and no later token is executed. *)
Theorem moveHistory_records_series (pre : list string) (bad : string)
    (post : list string) :
  Forall (fun m => In m CubeMove) pre -> ~ In bad CubeMove ->
  exists st, executeMoves pre newRubiksCube = (Ok tt, st) /\
    moveHistory st = pre /\
    executeMoves (pre ++ bad :: post) newRubiksCube
    = (Throw (InvalidMove bad), st).
Proof.
  intros Hpre Hbad.
  destruct (executeMoves_effect pre newRubiksCube Hpre shaped_new)
    as (st & E & _ & _ & T & _).
  exists st. split; [exact E | split; [exact T | ]].
  rewrite (executeMoves_app pre (bad :: post) _ st E).
  cbn [executeMoves]. unfold bind.
  by rewrite (executeMove_invalid bad st Hbad).
Qed.

Lemma moveHistory_records_series_witness :
  exists st, executeMoves ["R"; "U'"] newRubiksCube = (Ok tt, st) /\
    moveHistory st = ["R"; "U'"] /\
    executeMoves (["R"; "U'"] ++ "X" :: ["F"]) newRubiksCube
    = (Throw (InvalidMove "X"), st).
Proof.
  apply (moveHistory_records_series ["R"; "U'"] "X" ["F"]).
  - repeat (constructor; [unfold CubeMove; cbn [In]; tauto | ]). constructor.
  - unfold CubeMove. cbn [In]. intros H.
    repeat (destruct H as [H|H]; [discriminate H | ]). exact H.
Defined.

(** A 3x3 state that passes the scan has each face painted with its centre. *)
Lemma solvedb_faces (st : CubeState) :
  shaped st -> solvedb st = true ->
  faces st = faces (paintedCube (center (front (faces st)))
                                (center (back (faces st)))
                                (center (left (faces st)))
                                (center (right (faces st)))
                                (center (top (faces st)))
                                (center (bottom (faces st))) true []).
Proof.
  intros H Hs. open_state st H.
  unfold solvedb, likeFirstb in Hs. cbn in Hs.
  repeat match goal with
  | H : _ && _ = true |- _ =>
      apply andb_prop in H; let H1 := fresh in destruct H as [H1 H]
  | H : String.eqb _ _ = true |- _ => apply String.eqb_eq in H
  end.
  subst. reflexivity.
Qed.

(** X6.  No move displaces the middle sticker of a face: after any series
    of valid tokens on a new cube the six centres are still green, blue,
    orange, red, white and yellow.  Hence such a state passes [isSolved]
    only in the arrangement of a new cube. *)
Theorem centers_fixed_and_solved_is_canonical (moves : list string) :
  Forall (fun m => In m CubeMove) moves ->
  exists st, executeMoves moves newRubiksCube = (Ok tt, st) /\
    centers st = [GREEN; BLUE; ORANGE; RED; WHITE; YELLOW] /\
    (isSolved st = (Ok true, st) <-> faces st = faces createSolvedCube).
Proof.
  intros Hmoves.
  destruct (executeMoves_effect moves newRubiksCube Hmoves shaped_new)
    as (st & E & S & _ & _ & K & _).
  exists st. split; [exact E | split; [exact K | ]].
  rewrite (isSolved_spec st S). split.
  - intros Hb. injection Hb as Hb.
    rewrite (solvedb_faces st S Hb).
    unfold centers in K. cbn [map faceValues] in K.
    injection K as -> -> -> -> -> ->. reflexivity.
  - intros Hf. unfold solvedb. rewrite Hf. reflexivity.
Qed.

Lemma centers_fixed_and_solved_is_canonical_witness :
  exists st, executeMoves ["B"; "L2"; "D'"] newRubiksCube = (Ok tt, st) /\
    centers st = [GREEN; BLUE; ORANGE; RED; WHITE; YELLOW] /\
    (isSolved st = (Ok true, st) <-> faces st = faces createSolvedCube).
Proof.
  apply (centers_fixed_and_solved_is_canonical ["B"; "L2"; "D'"]).
  repeat (constructor; [unfold CubeMove; cbn [In]; tauto | ]). constructor.
Defined.

(** ** [scramble] *)

Lemma allMoves_valid (m : string) : In m allMoves -> In m CubeMove.
Proof.
  unfold allMoves, CubeMove. cbn [In]. intros H.
  repeat (destruct H as [<-|H]; [tauto | ]). destruct H.
Qed.

Lemma scramble_as_series (draws : list nat) (st : CubeState) :
  Forall (fun k => k < 12) draws ->
  scramble draws st
  = executeMoves (map (fun k => nth k allMoves "") draws) st.
Proof.
  intros H. revert st.
  induction H as [|k rest Hk _ IH]; intros st; cbn [scramble executeMoves map].
  - reflexivity.
  - rewrite (nth_error_nth' allMoves "") by exact Hk.
    unfold bind. destruct (executeMove _ st) as [[[]|e] st1]; [apply IH | reflexivity].
Qed.

(** X7.  [scramble] on a 3x3 state, with every drawn index inside the pool
    of twelve, returns normally and appends to the history exactly as many
    tokens as asked for, 20 when the count is left out, each of them one of
    the twelve quarter turns; it keeps the shape, the centres and the number
    of stickers of every colour.  Asked for no move, it leaves the engine
    state as it is. *)
Theorem scramble_effect (moves : option nat) (rand : nat -> nat)
    (st : CubeState) :
  (forall i, rand i < 12) -> shaped st ->
  exists st' tokens,
    scrambleWith moves rand st = (Ok tt, st') /\
    length tokens = match moves with Some n => n | None => 20 end /\
    Forall (fun m => In m allMoves) tokens /\
    moveHistory st' = moveHistory st ++ tokens /\
    shaped st' /\ centers st' = centers st /\
    (forall c, countColor c st' = countColor c st) /\
    (moves = Some 0 -> st' = st).
Proof.
  intros Hrand Hst. unfold scrambleWith.
  set (n := match moves with Some n => n | None => 20 end).
  set (draws := map rand (seq 0 n)).
  set (tokens := map (fun k => nth k allMoves "") draws).
  assert (Hdraws : Forall (fun k => k < 12) draws).
  { rewrite List.Forall_forall. intros k Hk.
    apply in_map_iff in Hk. destruct Hk as (i & <- & _). apply Hrand. }
  assert (Htokens : Forall (fun m => In m allMoves) tokens).
  { rewrite List.Forall_forall. intros m Hm.
    apply in_map_iff in Hm. destruct Hm as (k & <- & Hk).
    rewrite List.Forall_forall in Hdraws. apply nth_In. apply (Hdraws k Hk). }
  assert (Hvalid : Forall (fun m => In m CubeMove) tokens).
  { rewrite List.Forall_forall in *. intros m Hm.
    apply allMoves_valid, Htokens, Hm. }
  destruct (executeMoves_effect tokens st Hvalid Hst)
    as (st' & E & S & _ & T & K & C).
  exists st', tokens. rewrite (scramble_as_series draws st Hdraws).
  split; [exact E | split].
  { unfold tokens, draws. by rewrite !length_map, length_seq. }
  do 5 (split; [assumption | ]).
  intros ->. cbn in E. by injection E as <-.
Qed.

Lemma scramble_effect_witness :
  exists st' tokens,
    scrambleWith (Some 5) (fun i => i mod 12) afterR = (Ok tt, st') /\
    length tokens = 5 /\
    moveHistory st' = moveHistory afterR ++ tokens.
Proof.
  destruct (scramble_effect (Some 5) (fun i => i mod 12) afterR)
    as (st' & tokens & E & L & _ & T & _).
  - intros i. apply Nat.mod_upper_bound. discriminate.
  - reflexivity.
  - exists st', tokens. split; [exact E | split; [exact L | exact T]].
Defined.

(** ** [getStateAsText] *)

(** X8.  On 3x3 states whose colour codes are single characters,
    [getStateAsText] returns a text without changing the engine state, and
    two such states get the same text exactly when their faces are equal:
    the text shows every sticker and nothing of the flag or the history. *)
Theorem getStateAsText_shows_faces (st1 st2 : CubeState) :
  shaped st1 -> shaped st2 -> oneCharStickers st1 -> oneCharStickers st2 ->
  exists text1 text2,
    getStateAsText st1 = (Ok text1, st1) /\
    getStateAsText st2 = (Ok text2, st2) /\
    (text1 = text2 <-> faces st1 = faces st2).
Proof.
  intros H1 H2 O1 O2. open_state st1 H1. open_state st2 H2.
  unfold oneCharStickers in O1, O2. cbn in O1, O2.
  repeat match goal with
  | H : _ && _ = true |- _ =>
      apply andb_prop in H; let H1 := fresh in destruct H as [H1 H]
  end.
  repeat match goal with
  | H : Nat.eqb (String.length ?x) 1 = true |- _ =>
      destruct x as [|? [|? ?]]; cbn in H; try discriminate H; clear H
  end.
  eexists. eexists.
  split; [vm_compute; reflexivity | split; [vm_compute; reflexivity | ]].
  split.
  - intros E.
    repeat match goal with
    | H : String _ _ = String _ _ |- _ => injection H; clear H; intros
    | H : EmptyString = EmptyString |- _ => clear H
    end.
    subst. reflexivity.
  - intros E. cbn [faces] in E. injection E; clear E; intros.
    unfold grid in *.
    repeat match goal with
    | H : _ :: _ = _ :: _ |- _ => injection H; clear H; intros
    | H : [] = [] |- _ => clear H
    | H : String _ _ = String _ _ |- _ => injection H; clear H; intros
    | H : EmptyString = EmptyString |- _ => clear H
    end.
    subst. reflexivity.
Qed.

Lemma getStateAsText_shows_faces_witness :
  exists text1 text2,
    getStateAsText afterR = (Ok text1, afterR) /\
    getStateAsText staleSnapshot = (Ok text2, staleSnapshot) /\
    (text1 = text2 <-> faces afterR = faces staleSnapshot).
Proof.
  apply (getStateAsText_shows_faces afterR staleSnapshot); reflexivity.
Defined.

(** ** Session creation and request series *)

Lemma entryOK_new_engine (cube : CubeState) (s : GameSession) :
  shaped cube -> solved cube = solvedb cube ->
  (forall c, In c COLORS -> countColor c cube = 9) ->
  cubeState s = cube ->
  entryOK (Game.mk cube s).
Proof. intros. by repeat split. Qed.

Lemma countColor_new (c : string) :
  In c COLORS -> countColor c newRubiksCube = 9.
Proof.
  unfold COLORS. cbn [In]. intros H.
  repeat (destruct H as [<-|H]; [reflexivity | ]). destruct H.
Qed.

(** The engine that [startCube] puts into the registry. *)
Lemma startCube_engine (scramble : option bool) (rand : nat -> nat) :
  (forall i, rand i < 12) ->
  exists cube,
    (if match scramble with Some b => b | None => true end
     then scrambleWith None rand else ret tt) newRubiksCube = (Ok tt, cube) /\
    shaped cube /\ solved cube = solvedb cube /\
    (forall c, In c COLORS -> countColor c cube = 9) /\
    length (moveHistory cube)
    = (if match scramble with Some b => b | None => true end then 20 else 0).
Proof.
  intros Hrand.
  assert (Hscr : exists cube,
            scrambleWith None rand newRubiksCube = (Ok tt, cube) /\
            shaped cube /\ solved cube = solvedb cube /\
            (forall c, In c COLORS -> countColor c cube = 9) /\
            length (moveHistory cube) = 20).
  { unfold scrambleWith.
    set (draws := map rand (seq 0 20)).
    assert (Hdraws : Forall (fun k => k < 12) draws).
    { rewrite List.Forall_forall. intros k Hk.
      apply in_map_iff in Hk. destruct Hk as (i & <- & _). apply Hrand. }
    rewrite (scramble_as_series draws newRubiksCube Hdraws).
    set (tokens := map (fun k => nth k allMoves "") draws).
    assert (Hvalid : Forall (fun m => In m CubeMove) tokens).
    { rewrite List.Forall_forall. intros m Hm.
      apply in_map_iff in Hm. destruct Hm as (k & <- & Hk).
      rewrite List.Forall_forall in Hdraws.
      apply allMoves_valid, nth_In, (Hdraws k Hk). }
    destruct (executeMoves_effect tokens newRubiksCube Hvalid shaped_new)
      as (cube & E & S & F & T & _ & C).
    exists cube. split; [exact E | split; [exact S | split; [by apply F | ]]].
    split.
    - intros c Hc. rewrite C. by apply countColor_new.
    - rewrite T. unfold tokens, draws. cbn [moveHistory newRubiksCube createSolvedCube app].
      by rewrite !length_map, length_seq. }
  destruct scramble as [[|]|]; try exact Hscr.
  exists newRubiksCube. split; [reflexivity | split; [reflexivity | ]].
  split; [reflexivity | split; [apply countColor_new | reflexivity]].
Qed.



(** ** [manipulateCube] outside the completed branch *)

(** X10.  A [manipulateCube] request that fails changes nothing: for an
    unknown id it throws [SessionNotFound], for an active session and a
    token outside the alphabet it throws [InvalidMove], and in both cases
    the registry is as before. *)
Theorem manipulateCube_failure_changes_nothing
    (games : gmap string Game.t) (gameId move : string) (now now' : Z) :
  (games !! gameId = None ->
     manipulateCube gameId move now now' games
     = (Throw (SessionNotFound gameId), games)) /\
  (forall game, games !! gameId = Some game ->
     status (Game.session game) = active -> ~ In move CubeMove ->
     manipulateCube gameId move now now' games
     = (Throw (InvalidMove move), games)).
Proof.
  split.
  - intros Hnone. unfold manipulateCube. by rewrite Hnone.
  - intros game Hget Hact Hbad. unfold manipulateCube.
    rewrite Hget. cbn zeta. rewrite Hact. unfold bind.
    rewrite (executeMove_invalid move _ Hbad).
    destruct game as [cube session]. cbn [Game.cube Game.session].
    by rewrite (insert_id games gameId _ Hget).
Qed.

Lemma manipulateCube_failure_changes_nothing_witness :
  manipulateCube "none" "U" 1 2 sampleGames
  = (Throw (SessionNotFound "none"), sampleGames) /\
  manipulateCube "open" "U3" 1 2 sampleGames
  = (Throw (InvalidMove "U3"), sampleGames).
Proof.
  split.
  - apply (manipulateCube_failure_changes_nothing sampleGames "none" "U" 1 2).
    reflexivity.
  - apply (proj2 (manipulateCube_failure_changes_nothing
                    sampleGames "open" "U3" 1 2)
             (Game.mk afterR (sampleSession "open" active))).
    + reflexivity.
    + reflexivity.
    + unfold CubeMove. cbn [In]. intros H.
      repeat (destruct H as [H|H]; [discriminate H | ]). exact H.
Defined.

(** The entry that a successful move leaves in the registry. *)
Lemma manipulateCube_active_entry
    (games : gmap string Game.t) (gameId move : string) (now now' : Z)
    (game : Game.t) :
  games !! gameId = Some game ->
  status (Game.session game) = active ->
  shaped (Game.cube game) -> In move CubeMove ->
  exists st',
    executeMove move (Game.cube game) = (Ok tt, st') /\
    manipulateCube gameId move now now' games
    = (Ok (CubeResponse.mk gameId st' (nextActionOf st')),
       <[gameId :=
           Game.mk st'
             {| id := id (Game.session game);
                cubeState := st';
                createdAt := createdAt (Game.session game);
                lastActivity := now';
                status := if solved st' then completed else active |}]>
         games).
Proof.
  intros Hget Hact Hst Hin.
  destruct (executeMove_effect move _ Hin Hst) as (st' & E & _).
  exists st'. split; [exact E | ].
  unfold manipulateCube. rewrite Hget. cbn zeta. rewrite Hact.
  unfold bind. rewrite E. unfold getState, updateSession. cbn.
  by destruct (solved st').
Qed.

(** X11.  A valid move on an active session with a 3x3 cube is executed on
    the session's engine.  The entry then holds the new engine state, also
    as the session's [cubeState], with one more token in the history and
    [lastActivity] set to the later clock reading; id and [createdAt] are
    kept; the status is [completed] if the new state is flagged solved and
    [active] otherwise, and [nextAction] is "finish" or "manipulateCube"
    accordingly.  No other entry changes. *)
Theorem manipulateCube_executes_on_active_session
    (games : gmap string Game.t) (gameId move : string) (now now' : Z)
    (game : Game.t) :
  games !! gameId = Some game ->
  status (Game.session game) = active ->
  shaped (Game.cube game) -> In move CubeMove ->
  exists st' game' games',
    executeMove move (Game.cube game) = (Ok tt, st') /\
    manipulateCube gameId move now now' games
    = (Ok (CubeResponse.mk gameId st'
             (if solved st' then Some "finish" else Some "manipulateCube")),
       games') /\
    games' !! gameId = Some game' /\
    Game.cube game' = st' /\
    cubeState (Game.session game') = st' /\
    moveHistory st' = moveHistory (Game.cube game) ++ [move] /\
    lastActivity (Game.session game') = now' /\
    id (Game.session game') = id (Game.session game) /\
    createdAt (Game.session game') = createdAt (Game.session game) /\
    status (Game.session game')
    = (if solved st' then completed else active) /\
    (forall other, other <> gameId -> games' !! other = games !! other).
Proof.
  intros Hget Hact Hst Hin.
  destruct (manipulateCube_active_entry games gameId move now now' game
              Hget Hact Hst Hin) as (st' & E & Hrun).
  destruct (executeMove_effect move _ Hin Hst) as (st1 & E1 & _ & _ & T1 & _).
  rewrite E in E1. injection E1 as <-.
  exists st'. eexists. eexists.
  split; [exact E | split; [exact Hrun | ]].
  split; [apply lookup_insert_eq | ].
  do 2 (split; [reflexivity | ]). split; [exact T1 | ].
  do 4 (split; [reflexivity | ]).
  intros other Hother. by apply lookup_insert_ne.
Qed.

Lemma manipulateCube_executes_on_active_session_witness :
  exists st' game' games',
    executeMove "R'" afterR = (Ok tt, st') /\
    manipulateCube "open" "R'" 1 2 sampleGames
    = (Ok (CubeResponse.mk "open" st'
             (if solved st' then Some "finish" else Some "manipulateCube")),
       games') /\
    games' !! "open" = Some game' /\
    status (Game.session game') = (if solved st' then completed else active).
Proof.
  destruct (manipulateCube_executes_on_active_session sampleGames "open" "R'"
              1 2 (Game.mk afterR (sampleSession "open" active)))
    as (st' & game' & games' & E & R & L & _ & _ & _ & _ & _ & _ & S & _).
  - reflexivity.
  - reflexivity.
  - reflexivity.
  - unfold CubeMove. cbn [In]. tauto.
  - exists st', game', games'. by repeat split.
Defined.

(** ** Series of requests *)

Lemma registryOK_insert (games : gmap string Game.t) (gameId : string)
    (g : Game.t) :
  registryOK games -> entryOK g -> registryOK (<[gameId := g]> games).
Proof.
  intros Hgames Hg other g' Hget.
  destruct (decide (gameId = other)) as [->|Hne].
  - rewrite lookup_insert_eq in Hget. by injection Hget as <-.
  - rewrite lookup_insert_ne in Hget by exact Hne. by apply (Hgames other).
Qed.

Lemma manipulateCube_registryOK
    (games : gmap string Game.t) (gameId move : string) (now now' : Z) :
  registryOK games ->
  registryOK (snd (manipulateCube gameId move now now' games)).
Proof.
  intros Hgames.
  destruct (games !! gameId) as [game|] eqn:Hget.
  2: { unfold manipulateCube. by rewrite Hget. }
  destruct (Hgames gameId game Hget) as (Hst & Hsync & Hflag & Hcount).
  destruct (status (Game.session game)) eqn:Hstatus.
  - destruct (in_dec string_dec move CubeMove) as [Hin|Hout].
    + destruct (manipulateCube_active_entry games gameId move now now' game
                  Hget Hstatus Hst Hin) as (st' & E & ->).
      destruct (executeMove_effect move _ Hin Hst)
        as (st1 & E1 & S1 & F1 & _ & _ & C1).
      rewrite E in E1. injection E1 as <-.
      apply registryOK_insert; [exact Hgames | ].
      split; [exact S1 | split; [reflexivity | split; [exact F1 | ]]].
      intros c Hc. cbn [Game.cube]. rewrite C1. by apply Hcount.
    + unfold manipulateCube. rewrite Hget. cbn zeta. rewrite Hstatus.
      unfold bind. rewrite (executeMove_invalid move _ Hout). cbn [snd].
      apply registryOK_insert; [exact Hgames | ].
      destruct game. by repeat split.
  - unfold manipulateCube. rewrite Hget. cbn zeta. rewrite Hstatus.
    unfold getState. cbn [snd].
    apply registryOK_insert; [exact Hgames | ].
    destruct game. by repeat split.
Qed.

Lemma finish_registryOK (games : gmap string Game.t) (gameId : string)
    (now : Z) :
  registryOK games -> registryOK (snd (finish gameId now games)).
Proof.
  intros Hgames. unfold finish.
  destruct (games !! gameId) as [game|] eqn:Hget; [ | exact Hgames].
  destruct (Hgames gameId game Hget) as (Hst & Hsync & Hflag & Hcount).
  cbn zeta. unfold getState. cbn [snd].
  apply registryOK_insert; [exact Hgames | ].
  by repeat split.
Qed.

Lemma serve_registryOK (r : Request) (games : gmap string Game.t) :
  drawsInRange r -> registryOK games -> registryOK (snd (serve r games)).
Proof.
  intros Hr Hgames. destruct r as [scr gameId rand created last| |]; cbn [serve].
  - destruct (startCube_engine scr rand Hr) as (cube & E & S & F & C & _).
    unfold startCube. rewrite E. unfold getState. cbn [snd].
    rewrite insert_insert_eq.
    apply registryOK_insert; [exact Hgames | by apply entryOK_new_engine].
  - by apply manipulateCube_registryOK.
  - by apply finish_registryOK.
Qed.

(** X12.  Whatever series of [startCube], [manipulateCube] and [finish]
    requests a server has answered since it started with an empty registry
    (the random source drawing inside the pool), every registered entry has
    an engine with six 3x3 faces and nine stickers of each colour, a flag
    that agrees with the faces, and a session whose [cubeState] is the
    state of its engine. *)
Theorem registry_invariant (rs : list Request) :
  Forall drawsInRange rs -> registryOK (serveAll rs ∅).
Proof.
  intros Hrs.
  assert (Hgen : forall games, registryOK games -> registryOK (serveAll rs games)).
  { induction Hrs as [|r rest Hr _ IH]; intros games Hgames; cbn [serveAll].
    - exact Hgames.
    - apply IH. by apply serve_registryOK. }
  apply Hgen. intros gameId g Hget. by rewrite lookup_empty in Hget.
Qed.

Lemma registry_invariant_witness :
  registryOK
    (serveAll [StartCube None "a" (fun i => i mod 12) 1 2;
               ManipulateCube "a" "U" 3 4;
               ManipulateCube "a" "Q" 5 6;
               Finish "a" 7;
               ManipulateCube "a" "D" 8 9] ∅).
Proof.
  apply registry_invariant.
  constructor;
    [intros i; apply Nat.mod_upper_bound; discriminate | ].
  repeat (constructor; [exact I | ]). constructor.
Defined.

Lemma manipulateCube_other (games : gmap string Game.t)
    (gameId other move : string) (now now' : Z) :
  other <> gameId ->
  snd (manipulateCube other move now now' games) !! gameId = games !! gameId.
Proof.
  intros Hne. unfold manipulateCube.
  destruct (games !! other) as [g|]; [ | reflexivity]. cbn zeta.
  destruct (status (Game.session g)).
  - destruct ((executeMove move;; getState) (Game.cube g)) as [[s|e] cube'];
      cbn [snd]; by rewrite lookup_insert_ne.
  - unfold getState. cbn [snd]. by rewrite lookup_insert_ne.
Qed.

Lemma finish_other (games : gmap string Game.t) (gameId other : string)
    (now : Z) :
  other <> gameId -> snd (finish other now games) !! gameId = games !! gameId.
Proof.
  intros Hne. unfold finish.
  destruct (games !! other) as [g|]; [ | reflexivity]. cbn zeta.
  unfold getState. cbn [snd]. by rewrite lookup_insert_ne.
Qed.

Lemma startCube_other (scr : option bool) (games : gmap string Game.t)
    (gameId other : string) (rand : nat -> nat) (created last : Z) :
  other <> gameId ->
  snd (startCube scr other rand created last games) !! gameId
  = games !! gameId.
Proof.
  intros Hne. unfold startCube.
  destruct ((if match scr with Some b => b | None => true end
             then scrambleWith None rand else ret tt) newRubiksCube)
    as [[[]|e] cube]; [ | reflexivity].
  unfold getState. cbn [snd]. by rewrite !lookup_insert_ne.
Qed.

Lemma serve_frozen (r : Request) (games : gmap string Game.t)
    (gameId : string) (game game1 : Game.t) :
  otherId gameId r ->
  games !! gameId = Some game1 -> frozenAs game game1 ->
  exists game2, snd (serve r games) !! gameId = Some game2 /\
    frozenAs game game2.
Proof.
  intros Hr Hget Hfrozen.
  destruct r as [scr other rand created last|other move now now'|other now];
    cbn [serve otherId] in *.
  - exists game1. by rewrite startCube_other.
  - destruct (decide (other = gameId)) as [->|Hne].
    + exists game1. split; [ | exact Hfrozen].
      destruct Hfrozen as (_ & _ & Hdone & _).
      unfold manipulateCube. rewrite Hget. cbn zeta. rewrite Hdone.
      unfold getState. cbn [snd]. rewrite lookup_insert_eq.
      by destruct game1.
    + exists game1. by rewrite manipulateCube_other.
  - destruct (decide (other = gameId)) as [->|Hne].
    + unfold finish. rewrite Hget. cbn zeta. unfold getState. cbn [snd].
      rewrite lookup_insert_eq. eexists. split; [reflexivity | ].
      destruct Hfrozen as (H1 & H2 & H3 & H4 & H5). by repeat split.
    + exists game1. by rewrite finish_other.
Qed.

(** X13.  [completed] is final.  Once a session is completed, no series of
    [manipulateCube] and [finish] requests, on this id or another, and of
    [startCube] requests that create other ids, removes its entry, changes
    its engine or its [cubeState], or makes its status anything but
    [completed]. *)
Theorem completed_session_is_frozen
    (rs : list Request) (games : gmap string Game.t) (gameId : string)
    (game : Game.t) :
  games !! gameId = Some game ->
  status (Game.session game) = completed ->
  Forall (otherId gameId) rs ->
  exists game', serveAll rs games !! gameId = Some game' /\
    Game.cube game' = Game.cube game /\
    cubeState (Game.session game') = cubeState (Game.session game) /\
    status (Game.session game') = completed /\
    id (Game.session game') = id (Game.session game) /\
    createdAt (Game.session game') = createdAt (Game.session game).
Proof.
  intros Hget Hdone Hrs.
  assert (Hgen : forall games1 game1,
            games1 !! gameId = Some game1 -> frozenAs game game1 ->
            exists game', serveAll rs games1 !! gameId = Some game' /\
              frozenAs game game').
  { induction Hrs as [|r rest Hr _ IH]; intros games1 game1 H1 F1;
      cbn [serveAll].
    - by exists game1.
    - destruct (serve_frozen r games1 gameId game game1 Hr H1 F1)
        as (game2 & H2 & F2).
      by apply (IH _ game2). }
  destruct (Hgen games game Hget) as (game' & H' & F'); [by repeat split | ].
  exists game'. split; [exact H' | exact F'].
Qed.

Lemma completed_session_is_frozen_witness :
  exists game',
    serveAll [ManipulateCube "done" "R'" 3 4; Finish "done" 5;
              StartCube None "new" (fun i => i mod 12) 6 7;
              ManipulateCube "open" "R'" 8 9] sampleGames !! "done"
    = Some game' /\
    Game.cube game' = afterR /\ status (Game.session game') = completed.
Proof.
  destruct (completed_session_is_frozen
              [ManipulateCube "done" "R'" 3 4; Finish "done" 5;
               StartCube None "new" (fun i => i mod 12) 6 7;
               ManipulateCube "open" "R'" 8 9]
              sampleGames "done"
              (Game.mk afterR (sampleSession "done" completed)))
    as (game' & H & C & _ & S & _).
  - reflexivity.
  - reflexivity.
  - do 2 (constructor; [exact I | ]).
    constructor; [intros E; discriminate E | ].
    constructor; [exact I | constructor].
  - exists game'. split; [exact H | split; [exact C | exact S]].
Defined.

(** ** The HTTP move route *)

Lemma includes_spec (l : list string) (x : string) :
  includes l x = true <-> In x l.
Proof.
  unfold includes. rewrite existsb_exists. split.
  - intros (y & Hy & E). apply String.eqb_eq in E. by subst y.
  - intros H. exists x. split; [exact H | apply String.eqb_refl].
Qed.

(** X14.  The move route answers 404 for an unknown id and 400 for a token
    that is not one of the 18, and in both cases leaves every session as it
    was, [lastActivity] included. *)
Theorem postMove_rejections (gameId move : string) (now : Z)
    (sessions : gmap string GameSession) :
  (sessions !! gameId = None ->
     postMove gameId move now sessions = (Status404, sessions)) /\
  (forall session, sessions !! gameId = Some session ->
     ~ In move validMoves ->
     postMove gameId move now sessions = (Status400, sessions)).
Proof.
  split.
  - intros Hnone. unfold postMove. by rewrite Hnone.
  - intros session Hget Hbad. unfold postMove. rewrite Hget.
    destruct (includes validMoves move) eqn:E; [ | reflexivity].
    apply includes_spec in E. contradiction.
Qed.

(** The route's own engine, loaded with a snapshot, does what an engine in
    that state does. *)
Lemma fresh_engine_run (move : string) (s st' : CubeState) :
  executeMove move s = (Ok tt, st') ->
  (setState s;; executeMove move;; getState) newRubiksCube = (Ok st', st').
Proof. intros E. unfold bind, setState. by rewrite E. Qed.

(** X15.  For a registered session with a 3x3 cube and a valid token the
    move route answers 200 whatever the status of the session, completed
    ones included: the session's [cubeState] becomes the result of
    [executeMove] on its former [cubeState], with the token appended to the
    history; [lastActivity] is set; the status becomes [completed] when the
    result is solved and is otherwise kept, so a completed session stays
    completed while its cube goes on changing.  Other sessions are not
    touched. *)
Theorem postMove_executes_whatever_the_status (gameId move : string) (now : Z)
    (sessions : gmap string GameSession) (session : GameSession) :
  sessions !! gameId = Some session ->
  shaped (cubeState session) -> In move validMoves ->
  exists st' session' sessions',
    executeMove move (cubeState session) = (Ok tt, st') /\
    postMove gameId move now sessions
    = (Status200 (String.append "Move " (String.append move " executed"))
                 st' (status session'),
       sessions') /\
    sessions' !! gameId = Some session' /\
    cubeState session' = st' /\
    moveHistory st' = moveHistory (cubeState session) ++ [move] /\
    lastActivity session' = now /\
    status session' = (if solved st' then completed else status session) /\
    id session' = id session /\ createdAt session' = createdAt session /\
    (forall other, other <> gameId -> sessions' !! other = sessions !! other).
Proof.
  intros Hget Hst Hin.
  destruct (executeMove_effect move _ Hin Hst)
    as (st' & E & S & F & T & _).
  exists st'. eexists. eexists. split; [exact E | ].
  unfold postMove. rewrite Hget.
  rewrite (proj2 (includes_spec validMoves move) Hin). cbn [negb].
  rewrite (fresh_engine_run move _ st' E).
  rewrite (isSolved_spec st' S). rewrite <- F.
  split; [reflexivity | ].
  split; [apply lookup_insert_eq | ].
  split; [reflexivity | split; [exact T | ]].
  do 4 (split; [reflexivity | ]).
  intros other Hother. by apply lookup_insert_ne.
Qed.

(** X16.  The tool and the HTTP route agree on an active session: when the
    session handed to the route is the one of the registry entry, the
    entry's engine holds 3x3 faces and the session's [cubeState] is the
    engine's state, both answer a valid token with the same new cube state
    and leave the session with the same [cubeState] and the same status. *)
Theorem tool_and_route_agree
    (games : gmap string Game.t) (sessions : gmap string GameSession)
    (gameId move : string) (now now' : Z) (game : Game.t) :
  games !! gameId = Some game ->
  sessions !! gameId = Some (Game.session game) ->
  status (Game.session game) = active ->
  cubeState (Game.session game) = Game.cube game ->
  shaped (Game.cube game) -> In move CubeMove ->
  exists st' action message games' sessions' game' session',
    manipulateCube gameId move now now' games
    = (Ok (CubeResponse.mk gameId st' action), games') /\
    postMove gameId move now' sessions
    = (Status200 message st' (status session'), sessions') /\
    games' !! gameId = Some game' /\
    sessions' !! gameId = Some session' /\
    Game.session game' = session'.
Proof.
  intros Hget Hses Hact Hsync Hst Hin.
  destruct (manipulateCube_active_entry games gameId move now now' game
              Hget Hact Hst Hin) as (st' & E & Hrun).
  assert (E' := E). rewrite <- Hsync in E', Hst.
  exists st'. do 6 eexists. split; [exact Hrun | ].
  unfold postMove. rewrite Hses.
  rewrite (proj2 (includes_spec validMoves move) Hin). cbn [negb].
  rewrite (fresh_engine_run move _ st' E').
  destruct (executeMove_effect move _ Hin Hst) as (st1 & E1 & S1 & F1 & _).
  rewrite E' in E1. injection E1 as <-.
  rewrite (isSolved_spec st' S1). rewrite <- F1.
  split; [reflexivity | ].
  split; [apply lookup_insert_eq | split; [apply lookup_insert_eq | ]].
  cbn [Game.session]. by rewrite Hact.
Qed.

Lemma postMove_rejections_witness :
  postMove "none" "U" 1 sampleSessions = (Status404, sampleSessions) /\
  postMove "open" "U3" 1 sampleSessions = (Status400, sampleSessions).
Proof.
  split.
  - apply (postMove_rejections "none" "U" 1 sampleSessions). reflexivity.
  - apply (proj2 (postMove_rejections "open" "U3" 1 sampleSessions)
             (sampleSession "open" active)).
    + reflexivity.
    + unfold validMoves. cbn [In]. intros H.
      repeat (destruct H as [H|H]; [discriminate H | ]). exact H.
Defined.

Lemma postMove_executes_whatever_the_status_witness :
  exists st' session' sessions',
    executeMove "U" afterR = (Ok tt, st') /\
    postMove "done" "U" 5 sampleSessions
    = (Status200 "Move U executed" st' (status session'), sessions') /\
    cubeState session' = st' /\
    moveHistory st' = ["R"; "U"] /\
    status session' = completed.
Proof.
  destruct (postMove_executes_whatever_the_status "done" "U" 5 sampleSessions
              (sampleSession "done" completed))
    as (st' & session' & sessions' & E & R & _ & C & T & _ & S & _).
  - reflexivity.
  - reflexivity.
  - unfold validMoves. cbn [In]. tauto.
  - exists st', session', sessions'.
    split; [exact E | split; [exact R | split; [exact C | split; [exact T | ]]]].
    rewrite S. by destruct (solved st').
Defined.

Lemma tool_and_route_agree_witness :
  exists st' action message games' sessions' game' session',
    manipulateCube "open" "U" 4 5 sampleGames
    = (Ok (CubeResponse.mk "open" st' action), games') /\
    postMove "open" "U" 5 sampleSessions
    = (Status200 message st' (status session'), sessions') /\
    games' !! "open" = Some game' /\
    sessions' !! "open" = Some session' /\
    Game.session game' = session'.
Proof.
  apply (tool_and_route_agree sampleGames sampleSessions "open" "U" 4 5
           (Game.mk afterR (sampleSession "open" active))).
  - reflexivity.
  - reflexivity.
  - reflexivity.
  - reflexivity.
  - reflexivity.
  - unfold CubeMove. cbn [In]. tauto.
Defined.

(** ** The counter turn of B *)

(** X17.  B' does not undo B.  On every 3x3 state, B followed by B', and
    B' followed by B, leave the faces as they were except that row 0 of
    top, row 2 of bottom, column 0 of left and column 2 of right come back
    reversed; the faces are restored exactly when the two end stickers of
    each of these four strips are equal. *)
Theorem moveB_counter_turn_reverses_strips (st : CubeState) :
  shaped st ->
  exists st1 st2,
    (executeMove "B";; executeMove "B'") st = (Ok tt, st1) /\
    (executeMove "B'";; executeMove "B") st = (Ok tt, st2) /\
    faces st1 = backStripsReversed (faces st) /\
    faces st2 = backStripsReversed (faces st) /\
    (faces st1 = faces st <->
     cell (top (faces st)) 0 0 = cell (top (faces st)) 0 2 /\
     cell (bottom (faces st)) 2 0 = cell (bottom (faces st)) 2 2 /\
     cell (left (faces st)) 0 0 = cell (left (faces st)) 2 0 /\
     cell (right (faces st)) 0 2 = cell (right (faces st)) 2 2).
Proof.
  intros H. open_state st H.
  eexists. eexists. split; [run_twice | split; [run_twice | ]].
  split; [reflexivity | split; [reflexivity | ]].
  cbn. unfold grid. split.
  - intros E. injection E; clear E; intros. by subst.
  - intros (-> & -> & -> & ->). reflexivity.
Qed.

Lemma moveB_counter_turn_reverses_strips_witness :
  exists st1 st2,
    (executeMove "B";; executeMove "B'") afterR = (Ok tt, st1) /\
    (executeMove "B'";; executeMove "B") afterR = (Ok tt, st2) /\
    faces st1 = backStripsReversed (faces afterR) /\
    faces st2 = backStripsReversed (faces afterR).
Proof.
  destruct (moveB_counter_turn_reverses_strips afterR)
    as (st1 & st2 & E1 & E2 & F1 & F2 & _).
  - reflexivity.
  - exists st1, st2. by repeat split.
Defined.
